(** * xlmdb: the search helper over an ordered key-value store

    A shallow embedding of [src/search-helper.ts] ([search] and
    [deepSearchHelper]) together with the parts of the JavaScript
    language and of the store that the two functions rely on. *)

From Stdlib Require Import ZArith QArith List Sorted Permutation String Ascii Lia.
From stdpp Require Import gmap sorting.
Import ListNotations.

Close Scope Q_scope.
Local Open Scope nat_scope.

Set Warnings "-clear-no-such-hyp".

(** ** JavaScript numbers

    [limit] and the result of a [sort] comparator are JavaScript numbers.
    Only their order with respect to an array length and their sign are
    observed by the code, and both are exact on rationals. *)

Inductive number : Type :=
| Finite (q : Q)
| PosInfinity
| NegInfinity
| NaN.

(** [len >= limit] for an array length [len]. Every comparison with [NaN]
    is false. *)
Definition length_ge (len : nat) (limit : number) : bool :=
  match limit with
  | Finite q => Qle_bool q (inject_Z (Z.of_nat len))
  | PosInfinity => false
  | NegInfinity => true
  | NaN => false
  end.

(** [x > 0] on numbers. *)
Definition is_positive (x : number) : bool :=
  match x with
  | Finite q => negb (Qle_bool q 0)
  | PosInfinity => true
  | NegInfinity => false
  | NaN => false
  end.

(** [x < 0] on numbers. *)
Definition is_negative (x : number) : bool :=
  match x with
  | Finite q => negb (Qle_bool 0 q)
  | PosInfinity => false
  | NegInfinity => true
  | NaN => false
  end.

Definition is_NaN (x : number) : bool :=
  match x with
  | NaN => true
  | _ => false
  end.

(** [x] is zero: a number that is neither negative nor positive. *)
Definition is_zero (x : number) : bool :=
  negb (is_NaN x) && negb (is_negative x) && negb (is_positive x).

(** [a - b] on numbers. *)
Definition js_sub (a b : number) : number :=
  match a, b with
  | NaN, _ | _, NaN => NaN
  | Finite x, Finite y => Finite (x - y)%Q
  | Finite _, PosInfinity => NegInfinity
  | Finite _, NegInfinity => PosInfinity
  | PosInfinity, PosInfinity => NaN
  | PosInfinity, _ => PosInfinity
  | NegInfinity, NegInfinity => NaN
  | NegInfinity, _ => NegInfinity
  end.

Definition of_nat (n : nat) : number := Finite (inject_Z (Z.of_nat n)).
Definition of_Z (z : Z) : number := Finite (inject_Z z).

(** ** JavaScript strings

    A string is the sequence of its code points. The store orders keys by
    the bytes of their UTF-8 encoding, which is the lexicographic order of
    the code points. *)

Definition jsstring : Type := list N.

(** A literal written in ASCII. *)
Definition js (s : string) : jsstring :=
  List.map N_of_ascii (list_ascii_of_string s).

(** The sentinel appended to a prefix: the code point U+FFFF. *)
Definition U_FFFF : N := 65535%N.

(** [s.startsWith(p)] *)
Fixpoint startsWith (s p : jsstring) {struct p} : bool :=
  match p, s with
  | [], _ => true
  | _ :: _, [] => false
  | c :: p', d :: s' => (c =? d)%N && startsWith s' p'
  end.

(** [s.includes(t)] *)
Fixpoint includes (s t : jsstring) : bool :=
  startsWith s t ||
  match s with
  | [] => false
  | _ :: s' => includes s' t
  end.

(** [toLowerCase]: the lower-case mapping of the Unicode Character
    Database (version 14.0.0), which the language applies code point by code
    point: a capital sigma becomes a final sigma at the end of a word,
    U+0130 becomes two code points, and the other code points follow the
    table of simple mappings. *)

(** The simple mappings, as runs [(first, last, step, image of first)]:
    the code points [first], [first + step], ..., [last] are mapped to
    consecutive images with the same step. *)
Definition lower_runs : list (N * N * N * N) :=
  [
   (65, 90, 1, 97); (192, 214, 1, 224); (216, 222, 1, 248); (256, 302, 2, 257);
   (306, 310, 2, 307); (313, 327, 2, 314); (330, 374, 2, 331); (376, 376, 1, 255);
   (377, 381, 2, 378); (385, 385, 1, 595); (386, 388, 2, 387); (390, 390, 1, 596);
   (391, 391, 1, 392); (393, 394, 1, 598); (395, 395, 1, 396); (398, 398, 1, 477);
   (399, 399, 1, 601); (400, 400, 1, 603); (401, 401, 1, 402); (403, 403, 1, 608);
   (404, 404, 1, 611); (406, 406, 1, 617); (407, 407, 1, 616); (408, 408, 1, 409);
   (412, 412, 1, 623); (413, 413, 1, 626); (415, 415, 1, 629); (416, 420, 2, 417);
   (422, 422, 1, 640); (423, 423, 1, 424); (425, 425, 1, 643); (428, 428, 1, 429);
   (430, 430, 1, 648); (431, 431, 1, 432); (433, 434, 1, 650); (435, 437, 2, 436);
   (439, 439, 1, 658); (440, 440, 1, 441); (444, 444, 1, 445); (452, 452, 1, 454);
   (453, 453, 1, 454); (455, 455, 1, 457); (456, 456, 1, 457); (458, 458, 1, 460);
   (459, 475, 2, 460); (478, 494, 2, 479); (497, 497, 1, 499); (498, 500, 2, 499);
   (502, 502, 1, 405); (503, 503, 1, 447); (504, 542, 2, 505); (544, 544, 1, 414);
   (546, 562, 2, 547); (570, 570, 1, 11365); (571, 571, 1, 572); (573, 573, 1, 410);
   (574, 574, 1, 11366); (577, 577, 1, 578); (579, 579, 1, 384); (580, 580, 1, 649);
   (581, 581, 1, 652); (582, 590, 2, 583); (880, 882, 2, 881); (886, 886, 1, 887);
   (895, 895, 1, 1011); (902, 902, 1, 940); (904, 906, 1, 941); (908, 908, 1, 972);
   (910, 911, 1, 973); (913, 929, 1, 945); (932, 939, 1, 964); (975, 975, 1, 983);
   (984, 1006, 2, 985); (1012, 1012, 1, 952); (1015, 1015, 1, 1016); (1017, 1017, 1, 1010);
   (1018, 1018, 1, 1019); (1021, 1023, 1, 891); (1024, 1039, 1, 1104); (1040, 1071, 1, 1072);
   (1120, 1152, 2, 1121); (1162, 1214, 2, 1163); (1216, 1216, 1, 1231); (1217, 1229, 2, 1218);
   (1232, 1326, 2, 1233); (1329, 1366, 1, 1377); (4256, 4293, 1, 11520); (4295, 4295, 1, 11559);
   (4301, 4301, 1, 11565); (5024, 5103, 1, 43888); (5104, 5109, 1, 5112); (7312, 7354, 1, 4304);
   (7357, 7359, 1, 4349); (7680, 7828, 2, 7681); (7838, 7838, 1, 223); (7840, 7934, 2, 7841);
   (7944, 7951, 1, 7936); (7960, 7965, 1, 7952); (7976, 7983, 1, 7968); (7992, 7999, 1, 7984);
   (8008, 8013, 1, 8000); (8025, 8031, 2, 8017); (8040, 8047, 1, 8032); (8072, 8079, 1, 8064);
   (8088, 8095, 1, 8080); (8104, 8111, 1, 8096); (8120, 8121, 1, 8112); (8122, 8123, 1, 8048);
   (8124, 8124, 1, 8115); (8136, 8139, 1, 8050); (8140, 8140, 1, 8131); (8152, 8153, 1, 8144);
   (8154, 8155, 1, 8054); (8168, 8169, 1, 8160); (8170, 8171, 1, 8058); (8172, 8172, 1, 8165);
   (8184, 8185, 1, 8056); (8186, 8187, 1, 8060); (8188, 8188, 1, 8179); (8486, 8486, 1, 969);
   (8490, 8490, 1, 107); (8491, 8491, 1, 229); (8498, 8498, 1, 8526); (8544, 8559, 1, 8560);
   (8579, 8579, 1, 8580); (9398, 9423, 1, 9424); (11264, 11311, 1, 11312); (11360, 11360, 1, 11361);
   (11362, 11362, 1, 619); (11363, 11363, 1, 7549); (11364, 11364, 1, 637); (11367, 11371, 2, 11368);
   (11373, 11373, 1, 593); (11374, 11374, 1, 625); (11375, 11375, 1, 592); (11376, 11376, 1, 594);
   (11378, 11378, 1, 11379); (11381, 11381, 1, 11382); (11390, 11391, 1, 575); (11392, 11490, 2, 11393);
   (11499, 11501, 2, 11500); (11506, 11506, 1, 11507); (42560, 42604, 2, 42561); (42624, 42650, 2, 42625);
   (42786, 42798, 2, 42787); (42802, 42862, 2, 42803); (42873, 42875, 2, 42874); (42877, 42877, 1, 7545);
   (42878, 42886, 2, 42879); (42891, 42891, 1, 42892); (42893, 42893, 1, 613); (42896, 42898, 2, 42897);
   (42902, 42920, 2, 42903); (42922, 42922, 1, 614); (42923, 42923, 1, 604); (42924, 42924, 1, 609);
   (42925, 42925, 1, 620); (42926, 42926, 1, 618); (42928, 42928, 1, 670); (42929, 42929, 1, 647);
   (42930, 42930, 1, 669); (42931, 42931, 1, 43859); (42932, 42946, 2, 42933); (42948, 42948, 1, 42900);
   (42949, 42949, 1, 642); (42950, 42950, 1, 7566); (42951, 42953, 2, 42952); (42960, 42960, 1, 42961);
   (42966, 42968, 2, 42967); (42997, 42997, 1, 42998); (65313, 65338, 1, 65345); (66560, 66599, 1, 66600);
   (66736, 66771, 1, 66776); (66928, 66938, 1, 66967); (66940, 66954, 1, 66979); (66956, 66962, 1, 66995);
   (66964, 66965, 1, 67003); (68736, 68786, 1, 68800); (71840, 71871, 1, 71872); (93760, 93791, 1, 93792);
   (125184, 125217, 1, 125218)
  ]%N.

(** The ranges of the code points with the property Cased. *)
Definition cased_ranges : list (N * N) :=
  [
   (65, 90); (97, 122); (170, 170); (181, 181); (186, 186); (192, 214);
   (216, 246); (248, 442); (444, 447); (452, 659); (661, 696); (704, 705);
   (736, 740); (837, 837); (880, 883); (886, 887); (890, 893); (895, 895);
   (902, 902); (904, 906); (908, 908); (910, 929); (931, 1013); (1015, 1153);
   (1162, 1327); (1329, 1366); (1376, 1416); (4256, 4293); (4295, 4295); (4301, 4301);
   (4304, 4346); (4349, 4351); (5024, 5109); (5112, 5117); (7296, 7304); (7312, 7354);
   (7357, 7359); (7424, 7615); (7680, 7957); (7960, 7965); (7968, 8005); (8008, 8013);
   (8016, 8023); (8025, 8025); (8027, 8027); (8029, 8029); (8031, 8061); (8064, 8116);
   (8118, 8124); (8126, 8126); (8130, 8132); (8134, 8140); (8144, 8147); (8150, 8155);
   (8160, 8172); (8178, 8180); (8182, 8188); (8305, 8305); (8319, 8319); (8336, 8348);
   (8450, 8450); (8455, 8455); (8458, 8467); (8469, 8469); (8473, 8477); (8484, 8484);
   (8486, 8486); (8488, 8488); (8490, 8493); (8495, 8500); (8505, 8505); (8508, 8511);
   (8517, 8521); (8526, 8526); (8544, 8575); (8579, 8580); (9398, 9449); (11264, 11492);
   (11499, 11502); (11506, 11507); (11520, 11557); (11559, 11559); (11565, 11565); (42560, 42605);
   (42624, 42653); (42786, 42887); (42891, 42894); (42896, 42954); (42960, 42961); (42963, 42963);
   (42965, 42969); (42997, 42998); (43000, 43002); (43824, 43866); (43868, 43880); (43888, 43967);
   (64256, 64262); (64275, 64279); (65313, 65338); (65345, 65370); (66560, 66639); (66736, 66771);
   (66776, 66811); (66928, 66938); (66940, 66954); (66956, 66962); (66964, 66965); (66967, 66977);
   (66979, 66993); (66995, 67001); (67003, 67004); (67456, 67456); (67459, 67461); (67463, 67504);
   (67506, 67514); (68736, 68786); (68800, 68850); (71840, 71903); (93760, 93823); (119808, 119892);
   (119894, 119964); (119966, 119967); (119970, 119970); (119973, 119974); (119977, 119980); (119982, 119993);
   (119995, 119995); (119997, 120003); (120005, 120069); (120071, 120074); (120077, 120084); (120086, 120092);
   (120094, 120121); (120123, 120126); (120128, 120132); (120134, 120134); (120138, 120144); (120146, 120485);
   (120488, 120512); (120514, 120538); (120540, 120570); (120572, 120596); (120598, 120628); (120630, 120654);
   (120656, 120686); (120688, 120712); (120714, 120744); (120746, 120770); (120772, 120779); (122624, 122633);
   (122635, 122654); (125184, 125251); (127280, 127305); (127312, 127337); (127344, 127369)
  ]%N.

(** The ranges of the code points with the property Case_Ignorable. *)
Definition case_ignorable_ranges : list (N * N) :=
  [
   (39, 39); (46, 46); (58, 58); (94, 94); (96, 96); (168, 168);
   (173, 173); (175, 175); (180, 180); (183, 184); (688, 879); (884, 885);
   (890, 890); (900, 901); (903, 903); (1155, 1161); (1369, 1369); (1375, 1375);
   (1425, 1469); (1471, 1471); (1473, 1474); (1476, 1477); (1479, 1479); (1524, 1524);
   (1536, 1541); (1552, 1562); (1564, 1564); (1600, 1600); (1611, 1631); (1648, 1648);
   (1750, 1757); (1759, 1768); (1770, 1773); (1807, 1807); (1809, 1809); (1840, 1866);
   (1958, 1968); (2027, 2037); (2042, 2042); (2045, 2045); (2070, 2093); (2137, 2139);
   (2184, 2184); (2192, 2193); (2200, 2207); (2249, 2306); (2362, 2362); (2364, 2364);
   (2369, 2376); (2381, 2381); (2385, 2391); (2402, 2403); (2417, 2417); (2433, 2433);
   (2492, 2492); (2497, 2500); (2509, 2509); (2530, 2531); (2558, 2558); (2561, 2562);
   (2620, 2620); (2625, 2626); (2631, 2632); (2635, 2637); (2641, 2641); (2672, 2673);
   (2677, 2677); (2689, 2690); (2748, 2748); (2753, 2757); (2759, 2760); (2765, 2765);
   (2786, 2787); (2810, 2815); (2817, 2817); (2876, 2876); (2879, 2879); (2881, 2884);
   (2893, 2893); (2901, 2902); (2914, 2915); (2946, 2946); (3008, 3008); (3021, 3021);
   (3072, 3072); (3076, 3076); (3132, 3132); (3134, 3136); (3142, 3144); (3146, 3149);
   (3157, 3158); (3170, 3171); (3201, 3201); (3260, 3260); (3263, 3263); (3270, 3270);
   (3276, 3277); (3298, 3299); (3328, 3329); (3387, 3388); (3393, 3396); (3405, 3405);
   (3426, 3427); (3457, 3457); (3530, 3530); (3538, 3540); (3542, 3542); (3633, 3633);
   (3636, 3642); (3654, 3662); (3761, 3761); (3764, 3772); (3782, 3782); (3784, 3789);
   (3864, 3865); (3893, 3893); (3895, 3895); (3897, 3897); (3953, 3966); (3968, 3972);
   (3974, 3975); (3981, 3991); (3993, 4028); (4038, 4038); (4141, 4144); (4146, 4151);
   (4153, 4154); (4157, 4158); (4184, 4185); (4190, 4192); (4209, 4212); (4226, 4226);
   (4229, 4230); (4237, 4237); (4253, 4253); (4348, 4348); (4957, 4959); (5906, 5908);
   (5938, 5939); (5970, 5971); (6002, 6003); (6068, 6069); (6071, 6077); (6086, 6086);
   (6089, 6099); (6103, 6103); (6109, 6109); (6155, 6159); (6211, 6211); (6277, 6278);
   (6313, 6313); (6432, 6434); (6439, 6440); (6450, 6450); (6457, 6459); (6679, 6680);
   (6683, 6683); (6742, 6742); (6744, 6750); (6752, 6752); (6754, 6754); (6757, 6764);
   (6771, 6780); (6783, 6783); (6823, 6823); (6832, 6862); (6912, 6915); (6964, 6964);
   (6966, 6970); (6972, 6972); (6978, 6978); (7019, 7027); (7040, 7041); (7074, 7077);
   (7080, 7081); (7083, 7085); (7142, 7142); (7144, 7145); (7149, 7149); (7151, 7153);
   (7212, 7219); (7222, 7223); (7288, 7293); (7376, 7378); (7380, 7392); (7394, 7400);
   (7405, 7405); (7412, 7412); (7416, 7417); (7468, 7530); (7544, 7544); (7579, 7679);
   (8125, 8125); (8127, 8129); (8141, 8143); (8157, 8159); (8173, 8175); (8189, 8190);
   (8203, 8207); (8216, 8217); (8228, 8228); (8231, 8231); (8234, 8238); (8288, 8292);
   (8294, 8303); (8305, 8305); (8319, 8319); (8336, 8348); (8400, 8432); (11388, 11389);
   (11503, 11505); (11631, 11631); (11647, 11647); (11744, 11775); (11823, 11823); (12293, 12293);
   (12330, 12333); (12337, 12341); (12347, 12347); (12441, 12446); (12540, 12542); (40981, 40981);
   (42232, 42237); (42508, 42508); (42607, 42610); (42612, 42621); (42623, 42623); (42652, 42655);
   (42736, 42737); (42752, 42785); (42864, 42864); (42888, 42890); (42994, 42996); (43000, 43001);
   (43010, 43010); (43014, 43014); (43019, 43019); (43045, 43046); (43052, 43052); (43204, 43205);
   (43232, 43249); (43263, 43263); (43302, 43309); (43335, 43345); (43392, 43394); (43443, 43443);
   (43446, 43449); (43452, 43453); (43471, 43471); (43493, 43494); (43561, 43566); (43569, 43570);
   (43573, 43574); (43587, 43587); (43596, 43596); (43632, 43632); (43644, 43644); (43696, 43696);
   (43698, 43700); (43703, 43704); (43710, 43711); (43713, 43713); (43741, 43741); (43756, 43757);
   (43763, 43764); (43766, 43766); (43867, 43871); (43881, 43883); (44005, 44005); (44008, 44008);
   (44013, 44013); (64286, 64286); (64434, 64450); (65024, 65039); (65043, 65043); (65056, 65071);
   (65106, 65106); (65109, 65109); (65279, 65279); (65287, 65287); (65294, 65294); (65306, 65306);
   (65342, 65342); (65344, 65344); (65392, 65392); (65438, 65439); (65507, 65507); (65529, 65531);
   (66045, 66045); (66272, 66272); (66422, 66426); (67456, 67461); (67463, 67504); (67506, 67514);
   (68097, 68099); (68101, 68102); (68108, 68111); (68152, 68154); (68159, 68159); (68325, 68326);
   (68900, 68903); (69291, 69292); (69446, 69456); (69506, 69509); (69633, 69633); (69688, 69702);
   (69744, 69744); (69747, 69748); (69759, 69761); (69811, 69814); (69817, 69818); (69821, 69821);
   (69826, 69826); (69837, 69837); (69888, 69890); (69927, 69931); (69933, 69940); (70003, 70003);
   (70016, 70017); (70070, 70078); (70089, 70092); (70095, 70095); (70191, 70193); (70196, 70196);
   (70198, 70199); (70206, 70206); (70367, 70367); (70371, 70378); (70400, 70401); (70459, 70460);
   (70464, 70464); (70502, 70508); (70512, 70516); (70712, 70719); (70722, 70724); (70726, 70726);
   (70750, 70750); (70835, 70840); (70842, 70842); (70847, 70848); (70850, 70851); (71090, 71093);
   (71100, 71101); (71103, 71104); (71132, 71133); (71219, 71226); (71229, 71229); (71231, 71232);
   (71339, 71339); (71341, 71341); (71344, 71349); (71351, 71351); (71453, 71455); (71458, 71461);
   (71463, 71467); (71727, 71735); (71737, 71738); (71995, 71996); (71998, 71998); (72003, 72003);
   (72148, 72151); (72154, 72155); (72160, 72160); (72193, 72202); (72243, 72248); (72251, 72254);
   (72263, 72263); (72273, 72278); (72281, 72283); (72330, 72342); (72344, 72345); (72752, 72758);
   (72760, 72765); (72767, 72767); (72850, 72871); (72874, 72880); (72882, 72883); (72885, 72886);
   (73009, 73014); (73018, 73018); (73020, 73021); (73023, 73029); (73031, 73031); (73104, 73105);
   (73109, 73109); (73111, 73111); (73459, 73460); (78896, 78904); (92912, 92916); (92976, 92982);
   (92992, 92995); (94031, 94031); (94095, 94111); (94176, 94177); (94179, 94180); (110576, 110579);
   (110581, 110587); (110589, 110590); (113821, 113822); (113824, 113827); (118528, 118573); (118576, 118598);
   (119143, 119145); (119155, 119170); (119173, 119179); (119210, 119213); (119362, 119364); (121344, 121398);
   (121403, 121452); (121461, 121461); (121476, 121476); (121499, 121503); (121505, 121519); (122880, 122886);
   (122888, 122904); (122907, 122913); (122915, 122916); (122918, 122922); (123184, 123197); (123566, 123566);
   (123628, 123631); (125136, 125142); (125252, 125259); (127995, 127999); (917505, 917505); (917536, 917631);
   (917760, 917999)
  ]%N.

Fixpoint in_ranges (rs : list (N * N)) (c : N) : bool :=
  match rs with
  | [] => false
  | (lo, hi) :: rs' => ((lo <=? c) && (c <=? hi))%N || in_ranges rs' c
  end.

Definition Cased (c : N) : bool := in_ranges cased_ranges c.

Definition Case_Ignorable (c : N) : bool := in_ranges case_ignorable_ranges c.

Fixpoint lower_in (runs : list (N * N * N * N)) (c : N) : N :=
  match runs with
  | [] => c
  | (lo, hi, step, image) :: runs' =>
      if ((lo <=? c) && (c <=? hi) && ((c - lo) mod step =? 0))%N
      then (image + (c - lo))%N
      else lower_in runs' c
  end.

(** The simple lower-case mapping of one code point. *)
Definition lower_cp (c : N) : N := lower_in lower_runs c.

(** The first code point of [s] that is not case-ignorable. *)
Fixpoint first_not_ignorable (s : jsstring) : option N :=
  match s with
  | [] => None
  | c :: s' => if Case_Ignorable c then first_not_ignorable s' else Some c
  end.

(** The condition Final_Sigma: a cased letter comes before, case-ignorable
    code points apart, and none comes after. [before] holds the code
    points that precede, the nearest first. *)
Definition final_sigma (before after : jsstring) : bool :=
  match first_not_ignorable before with
  | Some c => Cased c
  | None => false
  end &&
  match first_not_ignorable after with
  | Some c => negb (Cased c)
  | None => true
  end.

Definition CAPITAL_SIGMA : N := 931%N.   (* U+03A3 *)
Definition FINAL_SIGMA : N := 962%N.     (* U+03C2 *)
Definition SMALL_SIGMA : N := 963%N.     (* U+03C3 *)
Definition CAPITAL_I_DOT : N := 304%N.   (* U+0130 *)

(** The lower case of the code point [c] between [before] and [after]. *)
Definition lower_at (before : jsstring) (c : N) (after : jsstring) : jsstring :=
  if (c =? CAPITAL_SIGMA)%N
  then [if final_sigma before after then FINAL_SIGMA else SMALL_SIGMA]
  else if (c =? CAPITAL_I_DOT)%N then [105%N; 775%N]
  else [lower_cp c].

Fixpoint lower_from (before s : jsstring) : jsstring :=
  match s with
  | [] => []
  | c :: rest => lower_at before c rest ++ lower_from (c :: before) rest
  end.

Definition toLowerCase (s : jsstring) : jsstring := lower_from [] s.

Arguments lower_cp : simpl never.
Arguments lower_at : simpl never.
Arguments toLowerCase : simpl never.

(** A string is truthy when it is not empty. *)
Definition truthy_string (s : jsstring) : bool :=
  match s with [] => false | _ :: _ => true end.

(** Key order: [a < b] and [a <= b], lexicographic. *)
Fixpoint key_ltb (a b : jsstring) : bool :=
  match a, b with
  | _, [] => false
  | [], _ :: _ => true
  | x :: a', y :: b' => (x <? y)%N || ((x =? y)%N && key_ltb a' b')
  end.

Definition key_leb (a b : jsstring) : bool := negb (key_ltb b a).

Definition key_lt (a b : jsstring) : Prop := key_ltb a b = true.

(** ** JavaScript values

    Objects and arrays live in a heap and are referred to by their
    identity, so that a value may be shared or refer back to itself. An
    object is the list of its enumerable properties in [for ... in]
    order; an array is the object whose property names are its indices. *)

Definition loc : Type := positive.

Inductive value : Type :=
| VUndefined
| VNull
| VBoolean (b : bool)
| VNumber (n : number)
| VString (s : jsstring)
| VObject (l : loc).

Arguments VObject l%_positive.

Abbreviation object := (list (jsstring * value)).

Abbreviation heap := (gmap loc object).

(** The enumerable properties of the object at [l]. *)
Definition props (h : heap) (l : loc) : object := default [] (h !! l).

(** [obj[name]] for a value [obj]. *)
Fixpoint get_prop (ps : object) (name : jsstring) : value :=
  match ps with
  | [] => VUndefined
  | (n, v) :: ps' => if decide (n = name) then v else get_prop ps' name
  end.

Definition get (h : heap) (obj : value) (name : jsstring) : value :=
  match obj with
  | VObject l => get_prop (props h l) name
  | _ => VUndefined
  end.

(** ** [deepSearchHelper]

    The function threads the [visited] set through the recursive calls
    (a [WeakSet] that the calls share and extend), so the embedding
    returns the set along with the boolean. [fuel] bounds the depth of
    the recursion; [None] means that it ran out. *)

Section DeepSearch.

Variable h : heap.
Variable text : jsstring.

(** [for (const key in obj) if (deepSearchHelper(obj[key], ...)) return true]
    followed by the final [return false]. *)
Fixpoint for_in (rec : value -> gset loc -> option (bool * gset loc))
    (ps : object) (visited : gset loc) : option (bool * gset loc) :=
  match ps with
  | [] => Some (false, visited)
  | (_, child) :: ps' =>
      match rec child visited with
      | None => None
      | Some (true, visited') => Some (true, visited')
      | Some (false, visited') => for_in rec ps' visited'
      end
  end.

Fixpoint deepSearchHelper (fuel : nat) (obj : value) (visited : gset loc)
    : option (bool * gset loc) :=
  match fuel with
  | O => None
  | S fuel' =>
      match obj with
      | VString s => Some (includes (toLowerCase s) text, visited)
      | VObject l =>
          if decide (l ∈ visited) then Some (false, visited)
          else for_in (deepSearchHelper fuel') (props h l) ({[l]} ∪ visited)
      | _ => Some (false, visited)
      end
  end.

End DeepSearch.

(** The top-level call [deepSearchHelper(value, searchText)], with a fresh
    [visited] set. The recursion is never deeper than the number of
    objects in the heap plus one. *)
Definition deep_fuel (h : heap) : nat := S (size (dom h)).

Definition deepSearchCall (h : heap) (text : jsstring) (obj : value) : bool :=
  match deepSearchHelper h text (deep_fuel h) obj ∅ with
  | Some (b, _) => b
  | None => false
  end.

(** ** The store

    Modelled from the spec: the embedded key-value store is an external
    dependency. A collection is an ordered mapping with unique keys, here
    the list of its entries in ascending key order. Range iteration
    yields the entries whose key lies in [[start, end)], ascending, or
    reversed when the caller asks for it. *)

Definition entry : Type := jsstring * value.

Definition Database : Type := list entry.

Definition db_ok (db : Database) : Prop :=
  StronglySorted key_lt (List.map fst db).

(** Point read. *)
Fixpoint db_get (db : Database) (k : jsstring) : option value :=
  match db with
  | [] => None
  | (k', v) :: db' => if decide (k' = k) then Some v else db_get db' k
  end.

Record RangeOptions : Type := {
  start : option jsstring;
  end_ : option jsstring;
  reverse : bool
}.

Definition in_range (o : RangeOptions) (k : jsstring) : bool :=
  match start o with Some s => key_leb s k | None => true end &&
  match end_ o with Some e => key_ltb k e | None => true end.

Definition getRange (db : Database) (o : RangeOptions) : list entry :=
  let es := List.filter (fun e => in_range o (fst e)) db in
  if reverse o then rev es else es.

(** ** [Array.prototype.sort]

    The sort is a built-in of the language. The language fixes its
    result for a consistent comparator: the elements in the order of the
    comparator, those that compare equal in the order they had. For any
    other comparator the order is left to the engine. The model is an
    insertion sort that moves an element, as engines do, only on a
    negative answer: the elements are taken from left to right, and each
    one moves towards the front past the elements for which the
    comparator returns a negative number; a [NaN] answer is read as
    zero. With a consistent comparator this is
    the order that the language prescribes ([array_sort_sorted],
    [array_sort_stable]); with a comparator that never returns a
    negative number the array is left as it is. *)

Section ArraySort.

Context {A : Type}.
Variable compareFn : A -> A -> number.

(** [x] enters the sorted part, given from its last element to its
    first. *)
Fixpoint sort_insert (x : A) (sorted : list A) : list A :=
  match sorted with
  | [] => [x]
  | y :: sorted' =>
      if is_negative (compareFn x y) then y :: sort_insert x sorted'
      else x :: y :: sorted'
  end.

Definition array_sort (l : list A) : list A :=
  rev (List.fold_left (fun sorted x => sort_insert x sorted) l []).

(** [a] may stay before [b]: the comparator does not return a positive
    number for them. *)
Definition before (a b : A) : Prop := is_positive (compareFn a b) = false.

(** The answers of the comparator: [a <C b], [a =C b] and [a >C b]. *)
Definition ltC (a b : A) : bool := is_negative (compareFn a b).
Definition eqC (a b : A) : bool := is_zero (compareFn a b).
Definition gtC (a b : A) : bool := is_positive (compareFn a b).

(** The comparator is a consistent comparator for the elements of [l],
    as the language defines it: its answer is never [NaN], [=C] is
    reflexive, symmetric and transitive, and [<C] and [>C] are
    transitive. *)
Definition consistent_on (l : list A) : bool :=
  forallb (fun a =>
    eqC a a &&
    forallb (fun b =>
      negb (is_NaN (compareFn a b)) &&
      implb (eqC a b) (eqC b a) &&
      forallb (fun c =>
        implb (eqC a b && eqC b c) (eqC a c) &&
        implb (ltC a b && ltC b c) (ltC a c) &&
        implb (gtC a b && gtC b c) (gtC a c)) l) l) l.

End ArraySort.

(** ** [SearchOptions] *)

Definition predicate : Type := value -> jsstring -> bool.

(** The pass-through options, without [start], [end] and [limit]. *)
Record PassThrough : Type := {
  pt_reverse : bool
}.

Record SearchOptions : Type := {
  prefix : option jsstring;
  limit : option number;
  sort : option (value -> value -> number);
  filters : option (list predicate);
  deepSearch : option jsstring;
  query : option jsstring;
  rangeOptions : option PassThrough
}.

(** [{}] *)
Definition no_options : SearchOptions :=
  {| prefix := None; limit := None; sort := None; filters := None;
     deepSearch := None; query := None; rangeOptions := None |}.

(** ** Observable steps of a search

    [search] pulls pairs from a lazy sequence and calls the predicates of
    the caller. Both are recorded in a trace, so that what is pulled and
    what is called, and in which order, can be stated. *)

Inductive event : Type :=
| Pull (key : jsstring)            (* the iterator yielded the pair of [key] *)
| Call (i : nat) (key : jsstring). (* predicate number [i] was called on the pair of [key] *)

Definition traced (A : Type) : Type := (A * list event)%type.

#[global] Instance traced_ret : MRet traced := fun A x => (x, []).

#[global] Instance traced_bind : MBind traced := fun A B f m =>
  let r := f (fst m) in (fst r, snd m ++ snd r).

Definition tell (e : event) : traced unit := (tt, [e]).

(** The keys pulled from the iterator, in order. *)
Fixpoint pulled (t : list event) : list jsstring :=
  match t with
  | [] => []
  | Pull k :: t' => k :: pulled t'
  | Call _ _ :: t' => pulled t'
  end.

(** ** [search] *)

(** [a || b] on optional strings: [a] when it is a non-empty string. *)
Definition or_else (a b : option jsstring) : option jsstring :=
  match a with
  | Some s => if truthy_string s then Some s else b
  | None => b
  end.

(** [allFilters.every((f) => f(value, key))], from predicate number [i]. *)
Fixpoint every (fs : list predicate) (i : nat) (v : value) (k : jsstring)
    : traced bool :=
  match fs with
  | [] => mret true
  | f :: fs' =>
      tell (Call i k);;
      if f v k then every fs' (S i) v k else mret false
  end.

(** The loop over the iterable; [results] is the array filled so far. *)
Fixpoint for_of (iterable : list entry) (allFilters : list predicate)
    (lim : number) (results : list entry) : traced (list entry) :=
  match iterable with
  | [] => mret results
  | (key, v) :: rest =>
      tell (Pull key);;
      skip ← (if 0 <? length allFilters
              then ok ← every allFilters 0 v key; mret (negb ok)
              else mret false);
      if (skip : bool) then for_of rest allFilters lim results
      else
        let results := results ++ [(key, v)] in
        if length_ge (length results) lim then mret results
        else for_of rest allFilters lim results
  end.

(** [rangeOpts] *)
Definition rangeOpts (options : SearchOptions) : RangeOptions :=
  let start := default [] (prefix options) in
  let end_ := if truthy_string start then Some (start ++ [U_FFFF]) else None in
  {| reverse := match rangeOptions options with
                | Some r => pt_reverse r
                | None => false
                end;
     start := Some start;
     end_ := end_ |}.

(** [searchText] *)
Definition searchText (options : SearchOptions) : option jsstring :=
  toLowerCase <$> or_else (deepSearch options) (query options).

(** [allFilters] *)
Definition allFilters (h : heap) (options : SearchOptions) : list predicate :=
  let allFilters := default [] (filters options) in
  match searchText options with
  | Some text =>
      if truthy_string text
      then allFilters ++ [fun v _ => deepSearchCall h text v]
      else allFilters
  | None => allFilters
  end.

Definition search (h : heap) (db : Database) (options : option SearchOptions)
    : traced (list entry) :=
  let options := default no_options options in
  let lim := default PosInfinity (limit options) in
  let iterable := getRange db (rangeOpts options) in
  results ← for_of iterable (allFilters h options) lim [];
  mret (match sort options with
       | Some compareFn =>
           array_sort (fun a b => compareFn (snd a) (snd b)) results
       | None => results
       end).

(** * Notions used to state the properties *)

(** A limit that is zero or negative is reached by every length. *)
Definition non_positive (lim : number) : Prop :=
  match lim with
  | Finite q => (q <= 0)%Q
  | NegInfinity => True
  | _ => False
  end.

(** A pair passes when every predicate holds of it. *)
Definition passes (fs : list predicate) (e : entry) : bool :=
  forallb (fun f : predicate => f (snd e) (fst e)) fs.

(** What is kept of the passing pairs: they are taken one by one until
    the length of the array reaches the limit. [len] is the length of the
    array so far. *)
Fixpoint take_until (len : nat) (lim : number) (l : list entry) : list entry :=
  match l with
  | [] => []
  | e :: l' =>
      e :: if length_ge (S len) lim then [] else take_until (S len) lim l'
  end.

(** The test of one pair in the loop: whether it is skipped. *)
Definition skip_test (fs : list predicate) (v : value) (k : jsstring)
    : traced bool :=
  if 0 <? length fs
  then ok ← every fs 0 v k; mret (negb ok)
  else mret false.

(** The strings that are reachable from a value through the members of
    objects and arrays. *)
Inductive reach (h : heap) : value -> jsstring -> Prop :=
| reach_string (s : jsstring) : reach h (VString s) s
| reach_member (l : loc) (name : jsstring) (child : value) (s : jsstring) :
    In (name, child) (props h l) -> reach h child s -> reach h (VObject l) s.

Section DeepSearchNotions.

Variable h : heap.
Variable text : jsstring.

(** The lower-cased string contains the text. *)
Definition matching (s : jsstring) : Prop := includes (toLowerCase s) text = true.

(** A member is covered by a set of objects: a string that does not
    match, an object of the set, or another value. *)
Definition covered (V : gset loc) (v : value) : Prop :=
  match v with
  | VString s => includes (toLowerCase s) text = false
  | VObject l => l ∈ V
  | _ => True
  end.

Definition members_covered (V : gset loc) (l : loc) : Prop :=
  forall name child, In (name, child) (props h l) -> covered V child.

End DeepSearchNotions.

(** The pairs of the scanned range that pass every predicate, in the
    order of the iteration. *)
Definition matching_pairs (h : heap) (db : Database) (o : SearchOptions)
    : list entry :=
  List.filter (passes (allFilters h o)) (getRange db (rangeOpts o)).

(** The array when the loop ends, before any sort. *)
Definition accumulated (h : heap) (db : Database) (o : SearchOptions)
    : list entry :=
  take_until 0 (default PosInfinity (limit o)) (matching_pairs h db o).

Definition by_value (compareFn : value -> value -> number) (a b : entry) : number :=
  compareFn (snd a) (snd b).

(** ** Options given field by field *)

Definition set_prefix (o : SearchOptions) (p : option jsstring) : SearchOptions :=
  {| prefix := p; limit := limit o; sort := sort o; filters := filters o;
     deepSearch := deepSearch o; query := query o; rangeOptions := rangeOptions o |}.

Definition set_limit (o : SearchOptions) (n : option number) : SearchOptions :=
  {| prefix := prefix o; limit := n; sort := sort o; filters := filters o;
     deepSearch := deepSearch o; query := query o; rangeOptions := rangeOptions o |}.

Definition set_sort (o : SearchOptions) (c : option (value -> value -> number))
    : SearchOptions :=
  {| prefix := prefix o; limit := limit o; sort := c; filters := filters o;
     deepSearch := deepSearch o; query := query o; rangeOptions := rangeOptions o |}.

Definition set_filters (o : SearchOptions) (fs : option (list predicate))
    : SearchOptions :=
  {| prefix := prefix o; limit := limit o; sort := sort o; filters := fs;
     deepSearch := deepSearch o; query := query o; rangeOptions := rangeOptions o |}.

Definition set_deepSearch (o : SearchOptions) (x : option jsstring) : SearchOptions :=
  {| prefix := prefix o; limit := limit o; sort := sort o; filters := filters o;
     deepSearch := x; query := query o; rangeOptions := rangeOptions o |}.

Definition set_query (o : SearchOptions) (x : option jsstring) : SearchOptions :=
  {| prefix := prefix o; limit := limit o; sort := sort o; filters := filters o;
     deepSearch := deepSearch o; query := x; rangeOptions := rangeOptions o |}.

(** Every code point of every key is below U+FFFF. *)
Definition keys_below_sentinel (db : Database) : Prop :=
  Forall (fun e : entry => Forall (fun c => (c < U_FFFF)%N) (fst e)) db.

(** ** Collections used as examples *)

Module Examples.

Local Open Scope string_scope.

Definition product (name : string) (price : Z) : object :=
  [(js "name", VString (js name)); (js "price", VNumber (of_Z price))].

(** The products of the test suite, and one more under another prefix. *)
Definition h_products : heap :=
  <[1%positive := product "Laptop" 999]>
  (<[2%positive := product "Mouse" 29]>
  (<[3%positive := product "Keyboard" 79]>
  (<[4%positive := product "Desk" 150]> ∅))).

Definition products : Database :=
  [(js "p1", VObject 1); (js "p2", VObject 2); (js "p3", VObject 3);
   (js "q1", VObject 4)].

Definition price_of (h : heap) (v : value) : number :=
  match get h v (js "price") with
  | VNumber n => n
  | _ => NaN
  end.

(** [p => p.price < 100] *)
Definition cheap : predicate :=
  fun p _ => is_positive (js_sub (of_Z 100) (price_of h_products p)).

(** [p => p.price > 50] *)
Definition not_too_cheap : predicate :=
  fun p _ => is_positive (js_sub (price_of h_products p) (of_Z 50)).

(** The items of the deep-search test, and a record without any string. *)
Definition h_items : heap :=
  <[1%positive := [(js "name", VString (js "Pen"))]]>
  (<[2%positive := [(js "name", VString (js "Book")); (js "details", VObject 3)]]>
  (<[3%positive := [(js "description", VString (js "A story about a blue pen."))]]>
  (<[4%positive := [(js "name", VString (js "Cup")); (js "price", VNumber (of_Z 3));
                    (js "sold", VBoolean false); (js "tags", VNull)]]>
  (<[5%positive := [(js "count", VNumber (of_Z 7)); (js "parts", VObject 6)]]>
  (<[6%positive := [(js "0", VNumber (of_Z 1)); (js "1", VUndefined)]]> ∅))))).

Definition items : Database :=
  [(js "i:1", VObject 1); (js "i:2", VObject 2); (js "i:3", VObject 4);
   (js "i:4", VObject 5)].

(** Two objects that refer to each other, one of them to itself too. *)
Definition h_cycle : heap :=
  <[1%positive := [(js "self", VObject 1); (js "child", VObject 2)]]>
  (<[2%positive := [(js "parent", VObject 1); (js "note", VString (js "Blue Pen"))]]> ∅).

(** Four entries [{v: 5}], [{v: 1}], [{v: 9}], [{v: 2}] and a fifth. *)
Definition with_v (v : Z) : object := [(js "v", VNumber (of_Z v))].

Definition h_v : heap :=
  <[1%positive := with_v 5]> (<[2%positive := with_v 1]>
  (<[3%positive := with_v 9]> (<[4%positive := with_v 2]>
  (<[5%positive := with_v 4]> ∅)))).

Definition four : Database :=
  [(js "k1", VObject 1); (js "k2", VObject 2); (js "k3", VObject 3);
   (js "k4", VObject 4)].

Definition five : Database := (four ++ [(js "k5", VObject 5)])%list.

Definition v_of (v : value) : number :=
  match get h_v v (js "v") with
  | VNumber n => n
  | _ => NaN
  end.

(** [(a, b) => a.v - b.v] *)
Definition by_v (a b : value) : number := js_sub (v_of a) (v_of b).

End Examples.

(** * Further notions *)

(** [(value, key) => key.startsWith(P)], a filter on the key. *)
Definition key_startsWith (P : jsstring) : predicate :=
  fun _ k => startsWith k P.

(** Two heaps whose objects have the same member values in the same
    order, under names that may differ. *)
Definition same_members (h h' : heap) : Prop :=
  forall l, List.map snd (props h l) = List.map snd (props h' l).

(** The limit as the loop reads it. *)
Definition limit_of (o : SearchOptions) : number :=
  default PosInfinity (limit o).

Module MoreExamples.

Local Open Scope string_scope.

(** Keys under the prefix "p": the prefix itself, two plain keys, and a
    key whose next code point is above U+FFFF (U+1F600). *)
Definition wide_keys : Database :=
  [(js "p", VNull); (js "p1", VNull); ((js "p" ++ [128512%N])%list, VNull);
   (js "q", VNull)].

(** [{pen: 1, label: "Ink"}] and the same values under other names. *)
Definition h_named : heap :=
  <[1%positive := [(js "pen", VNumber (of_Z 1)); (js "label", VString (js "Ink"))]]> ∅.

Definition h_renamed : heap :=
  <[1%positive := [(js "a", VNumber (of_Z 1)); (js "b", VString (js "Ink"))]]> ∅.

(** [{name: "ΑΣ"}], stored under the key "g1": a capital alpha and a
    capital sigma, U+0391 and U+03A3. *)
Definition alpha_sigma : jsstring := [913%N; 931%N].

Definition sigma : jsstring := [931%N].



(** "ÉCOLE" and "école". *)
Definition ecole_upper : jsstring := [201%N; 67%N; 79%N; 76%N; 69%N].

Definition ecole_lower : jsstring := [233%N; 99%N; 111%N; 108%N; 101%N].

End MoreExamples.

(** * Properties *)

(** ** Strings and the key order *)

Lemma startsWith_app (s p : jsstring) :
  startsWith s p = true <-> exists r, s = p ++ r.
Proof.
  revert s. induction p as [|c p IH]; intros s; simpl.
  - split; [intros _; exists s; reflexivity | reflexivity].
  - destruct s as [|d s].
    + split; [discriminate | intros [r Hr]; discriminate].
    + rewrite andb_true_iff, N.eqb_eq, IH. split.
      * intros [-> [r ->]]. exists r. reflexivity.
      * intros [r Hr]. injection Hr as -> ->. split; [reflexivity | exists r; reflexivity].
Qed.

Lemma includes_app (s t : jsstring) :
  includes s t = true <-> exists a b, s = a ++ t ++ b.
Proof.
  induction s as [|c s IH]; simpl.
  - rewrite orb_false_r, startsWith_app. split.
    + intros [r Hr]. exists [], r. exact Hr.
    + intros [a [b Hab]]. destruct a; simpl in Hab.
      * exists b. exact Hab.
      * discriminate.
  - rewrite orb_true_iff, IH, startsWith_app. split.
    + intros [[r Hr] | [a [b Hab]]].
      * exists [], r. exact Hr.
      * exists (c :: a), b. simpl. f_equal. exact Hab.
    + intros [a [b Hab]]. destruct a as [|d a]; simpl in Hab.
      * left. exists b. exact Hab.
      * right. injection Hab as _ Hab. exists a, b. exact Hab.
Qed.

Lemma includes_nil (s : jsstring) : includes s [] = true.
Proof. apply includes_app. exists [], s. reflexivity. Qed.

(** The lower case of a code point is never empty. *)
Lemma lower_at_cons (before : jsstring) (c : N) (after : jsstring) :
  exists d l, lower_at before c after = d :: l.
Proof.
  unfold lower_at. destruct (c =? CAPITAL_SIGMA)%N; [eauto |].
  destruct (c =? CAPITAL_I_DOT)%N; eauto.
Qed.

Lemma toLowerCase_truthy (s : jsstring) :
  truthy_string (toLowerCase s) = truthy_string s.
Proof.
  unfold toLowerCase. destruct s as [|c s]; [reflexivity |].
  simpl lower_from. destruct (lower_at_cons [] c s) as (d & l & ->). reflexivity.
Qed.

Lemma toLowerCase_nil (s : jsstring) : toLowerCase s = [] -> s = [].
Proof.
  intros H. pose proof (toLowerCase_truthy s) as Ht. rewrite H in Ht.
  destruct s; [reflexivity | discriminate Ht].
Qed.

Lemma key_ltb_nil_r (a : jsstring) : key_ltb a [] = false.
Proof. destruct a; reflexivity. Qed.

Lemma key_ltb_irrefl (a : jsstring) : key_ltb a a = false.
Proof.
  induction a as [|x a IH]; simpl; [reflexivity |].
  rewrite N.ltb_irrefl, N.eqb_refl, IH. reflexivity.
Qed.

Lemma key_lt_trans (a b c : jsstring) : key_lt a b -> key_lt b c -> key_lt a c.
Proof.
  unfold key_lt. revert b c.
  induction a as [|x a IH]; intros [|y b] [|z c]; simpl; try discriminate; try reflexivity.
  rewrite !orb_true_iff, !andb_true_iff, !N.ltb_lt, !N.eqb_eq.
  intros [Hxy | [-> Hab]] [Hyz | [<- Hbc]].
  - left. lia.
  - left. exact Hxy.
  - left. exact Hyz.
  - right. split; [reflexivity | eapply IH; eassumption].
Qed.

(** The range [[p, p + U+FFFF)] holds exactly the keys that start with [p],
    among the keys whose code points are all below U+FFFF. *)
Lemma prefix_range (p k : jsstring) :
  Forall (fun c => (c < U_FFFF)%N) k ->
  key_leb p k && key_ltb k (p ++ [U_FFFF]) = startsWith k p.
Proof.
  unfold key_leb. revert k.
  induction p as [|c p IH]; intros k Hk; simpl.
  - rewrite key_ltb_nil_r. simpl.
    destruct k as [|d k]; [reflexivity |].
    inversion Hk as [|? ? Hd _]; subst. simpl.
    apply N.ltb_lt in Hd. rewrite Hd. reflexivity.
  - destruct k as [|d k]; [reflexivity |].
    inversion Hk as [|? ? _ Hk']; subst.
    specialize (IH k Hk'). simpl.
    destruct (N.compare_spec d c) as [-> | Hlt | Hgt].
    + rewrite N.ltb_irrefl, N.eqb_refl. simpl. exact IH.
    + pose proof Hlt as Hlt'. apply N.ltb_lt in Hlt'. rewrite Hlt'. simpl.
      symmetry. apply andb_false_iff. left. apply N.eqb_neq. lia.
    + assert (Hdc : (d <? c)%N = false) by (apply N.ltb_ge; lia).
      assert (Hdc' : (d =? c)%N = false) by (apply N.eqb_neq; lia).
      assert (Hcd' : (c =? d)%N = false) by (apply N.eqb_neq; lia).
      rewrite Hdc, Hdc', Hcd'. reflexivity.
Qed.

(** ** The writer of traces *)

Lemma fst_bind {A B} (m : traced A) (f : A -> traced B) :
  fst (m ≫= f) = fst (f (fst m)).
Proof. reflexivity. Qed.

Lemma snd_bind {A B} (m : traced A) (f : A -> traced B) :
  snd (m ≫= f) = snd m ++ snd (f (fst m)).
Proof. reflexivity. Qed.

Lemma pulled_app (t u : list event) : pulled (t ++ u) = pulled t ++ pulled u.
Proof.
  induction t as [|[k | i k] t IH]; simpl; [reflexivity | f_equal; exact IH | exact IH].
Qed.

(** ** Numbers *)

Lemma length_ge_of_nat (len n : nat) : length_ge len (of_nat n) = (n <=? len).
Proof.
  unfold length_ge, of_nat, Qle_bool. simpl. rewrite !Z.mul_1_r.
  destruct (Nat.leb_spec n len); [apply Z.leb_le | apply Z.leb_gt]; lia.
Qed.

Lemma length_ge_non_positive (len : nat) (lim : number) :
  non_positive lim -> length_ge len lim = true.
Proof.
  destruct lim as [q | | |]; simpl; try contradiction; [| reflexivity].
  intros Hq. apply Qle_bool_iff. eapply Qle_trans; [exact Hq |].
  unfold Qle. simpl. lia.
Qed.

(** ** The loop of [search] *)

Lemma every_cons (f : predicate) (fs : list predicate) (i : nat) (v : value)
    (k : jsstring) :
  every (f :: fs) i v k =
  (tell (Call i k);; if f v k then every fs (S i) v k else mret false).
Proof. reflexivity. Qed.

Lemma every_fst (fs : list predicate) (i : nat) (v : value) (k : jsstring) :
  fst (every fs i v k) = passes fs (k, v).
Proof.
  revert i. induction fs as [|f fs IH]; intros i; [reflexivity |].
  rewrite every_cons, fst_bind. unfold passes in *. simpl forallb.
  destruct (f v k); [apply IH | reflexivity].
Qed.

Lemma every_pulled (fs : list predicate) (i : nat) (v : value) (k : jsstring) :
  pulled (snd (every fs i v k)) = [].
Proof.
  revert i. induction fs as [|f fs IH]; intros i; [reflexivity |].
  rewrite every_cons, snd_bind, pulled_app.
  destruct (f v k); [apply IH | reflexivity].
Qed.

Lemma skip_test_fst (fs : list predicate) (v : value) (k : jsstring) :
  fst (skip_test fs v k) = negb (passes fs (k, v)).
Proof.
  unfold skip_test. destruct fs as [|f fs]; [reflexivity |].
  change (0 <? length (f :: fs)) with true. cbv iota.
  rewrite fst_bind. cbv beta. rewrite every_fst. reflexivity.
Qed.

Lemma skip_test_pulled (fs : list predicate) (v : value) (k : jsstring) :
  pulled (snd (skip_test fs v k)) = [].
Proof.
  unfold skip_test. destruct (0 <? length fs); [| reflexivity].
  rewrite snd_bind, pulled_app, every_pulled. reflexivity.
Qed.

Lemma for_of_cons (k : jsstring) (v : value) (rest : list entry)
    (fs : list predicate) (lim : number) (acc : list entry) :
  for_of ((k, v) :: rest) fs lim acc =
  (tell (Pull k);;
   skip ← skip_test fs v k;
   if (skip : bool) then for_of rest fs lim acc
   else if length_ge (length (acc ++ [(k, v)])) lim then mret (acc ++ [(k, v)])
        else for_of rest fs lim (acc ++ [(k, v)])).
Proof. reflexivity. Qed.

(** The array returned by the loop. *)
Lemma for_of_fst (it : list entry) (fs : list predicate) (lim : number)
    (acc : list entry) :
  fst (for_of it fs lim acc) =
  acc ++ take_until (length acc) lim (List.filter (passes fs) it).
Proof.
  revert acc. induction it as [|[k v] it IH]; intros acc.
  - simpl. rewrite app_nil_r. reflexivity.
  - rewrite for_of_cons, !fst_bind, skip_test_fst. simpl List.filter.
    destruct (passes fs (k, v)); simpl negb; cbv iota.
    + simpl take_until. rewrite length_app, Nat.add_1_r.
      destruct (length_ge (S (length acc)) lim) eqn:Hstop.
      * reflexivity.
      * rewrite IH, length_app, Nat.add_1_r, <- app_assoc. reflexivity.
    + apply IH.
Qed.

(** What the loop pulls from the iterator: a prefix [consumed] of the
    sequence, whose passing pairs are the ones added to the array; when
    something is left unpulled, the limit has been reached, by the pair
    pulled last. *)
Lemma for_of_pulled (it : list entry) (fs : list predicate) (lim : number)
    (acc : list entry) :
  exists consumed rest,
    it = consumed ++ rest /\
    pulled (snd (for_of it fs lim acc)) = List.map fst consumed /\
    fst (for_of it fs lim acc) = acc ++ List.filter (passes fs) consumed /\
    (rest <> [] ->
     length_ge (length (fst (for_of it fs lim acc))) lim = true /\
     exists before e, consumed = before ++ [e] /\ passes fs e = true).
Proof.
  revert acc. induction it as [|[k v] it IH]; intros acc.
  - exists [], []. simpl. rewrite app_nil_r. repeat split; congruence.
  - rewrite for_of_cons, !fst_bind, !snd_bind, !pulled_app.
    rewrite skip_test_pulled, skip_test_fst.
    destruct (passes fs (k, v)) eqn:Hp; simpl negb; cbv iota.
    + destruct (length_ge (length (acc ++ [(k, v)])) lim) eqn:Hstop.
      * exists [(k, v)], it. simpl. rewrite Hp.
        repeat split; try reflexivity; [exact Hstop |].
        exists [], (k, v). split; [reflexivity | exact Hp].
      * destruct (IH (acc ++ [(k, v)])) as (c & r & -> & Hpull & Hres & Hrest).
        exists ((k, v) :: c), r. simpl. rewrite Hp, Hpull, Hres, <- app_assoc.
        repeat split; try reflexivity.
        -- destruct (Hrest H) as [Hge _]. rewrite Hres, <- app_assoc in Hge. exact Hge.
        -- destruct (Hrest H) as [_ (b & e & -> & He)].
           exists ((k, v) :: b), e. split; [reflexivity | exact He].
    + destruct (IH acc) as (c & r & -> & Hpull & Hres & Hrest).
      exists ((k, v) :: c), r. simpl. rewrite Hp, Hpull, Hres.
      repeat split; try reflexivity.
      * destruct (Hrest H) as [Hge _]. rewrite Hres in Hge. exact Hge.
      * destruct (Hrest H) as [_ (b & e & -> & He)].
        exists ((k, v) :: b), e. split; [reflexivity | exact He].
Qed.

Lemma take_until_cons (len : nat) (lim : number) (e : entry) (l : list entry) :
  take_until len lim (e :: l) =
  e :: if length_ge (S len) lim then [] else take_until (S len) lim l.
Proof. reflexivity. Qed.

Lemma take_until_unlimited (len : nat) (lim : number) (l : list entry) :
  (forall n, length_ge n lim = false) -> take_until len lim l = l.
Proof.
  intros Hlim. revert len. induction l as [|e l IH]; intros len; [reflexivity |].
  simpl. rewrite Hlim, IH. reflexivity.
Qed.

Lemma take_until_of_nat (len n : nat) (l : list entry) :
  len < n -> take_until len (of_nat n) l = firstn (n - len) l.
Proof.
  revert len. induction l as [|e l IH]; intros len Hlen.
  - rewrite firstn_nil. reflexivity.
  - rewrite take_until_cons, length_ge_of_nat.
    destruct (n - len) as [|m] eqn:Hm; [lia |]. simpl firstn. f_equal.
    destruct (Nat.leb_spec n (S len)).
    + replace m with 0 by lia. reflexivity.
    + rewrite IH by lia. f_equal. lia.
Qed.

Lemma take_until_reached (lim : number) (l : list entry) :
  length_ge 1 lim = true -> take_until 0 lim l = firstn 1 l.
Proof. intros Hlim. destruct l as [|e l]; simpl; [| rewrite Hlim]; reflexivity. Qed.

(** ** The sort *)

Lemma sorted_rev {A} (R : A -> A -> Prop) (l : list A) :
  StronglySorted R l -> StronglySorted (fun a b => R b a) (rev l).
Proof.
  induction 1 as [| x l Hs IH Hx]; simpl; [constructor |].
  apply StronglySorted_app_2; [| exact IH | repeat constructor].
  intros a b Ha Hb. apply list_elem_of_In in Ha, Hb.
  destruct Hb as [<- | []]. apply in_rev in Ha.
  eapply List.Forall_forall; eassumption.
Qed.

Section ArraySortFacts.

Context {A : Type}.
Variable compareFn : A -> A -> number.

Lemma sort_insert_perm (x : A) (l : list A) :
  Permutation (sort_insert compareFn x l) (x :: l).
Proof.
  induction l as [|y l IH]; simpl; [apply Permutation_refl |].
  destruct (is_negative (compareFn x y)); [| apply Permutation_refl].
  eapply Permutation_trans; [apply perm_skip, IH | apply perm_swap].
Qed.

Lemma sort_fold_perm (l sorted : list A) :
  Permutation
    (List.fold_left (fun sorted x => sort_insert compareFn x sorted) l sorted)
    (l ++ sorted).
Proof.
  revert sorted. induction l as [|x l IH]; intros sorted; simpl;
    [apply Permutation_refl |].
  eapply Permutation_trans; [apply IH |].
  eapply Permutation_trans;
    [apply Permutation_app_head, sort_insert_perm | apply Permutation_sym, Permutation_middle].
Qed.

Lemma array_sort_perm (l : list A) : Permutation (array_sort compareFn l) l.
Proof.
  unfold array_sort. eapply Permutation_trans; [apply Permutation_sym, Permutation_rev |].
  eapply Permutation_trans; [apply sort_fold_perm |]. rewrite app_nil_r.
  apply Permutation_refl.
Qed.

(** What a consistent comparator gives for three elements of the list. *)
Lemma consistent_on_spec (l : list A) (a b c : A) :
  consistent_on compareFn l = true -> In a l -> In b l -> In c l ->
  eqC compareFn a a = true /\
  is_NaN (compareFn a b) = false /\
  (eqC compareFn a b = true -> eqC compareFn b a = true) /\
  (eqC compareFn a b = true -> eqC compareFn b c = true -> eqC compareFn a c = true) /\
  (ltC compareFn a b = true -> ltC compareFn b c = true -> ltC compareFn a c = true) /\
  (gtC compareFn a b = true -> gtC compareFn b c = true -> gtC compareFn a c = true).
Proof.
  unfold consistent_on. rewrite forallb_forall. intros H Ha Hb Hc.
  specialize (H a Ha). apply andb_true_iff in H. destruct H as [Hrefl H].
  rewrite forallb_forall in H. specialize (H b Hb).
  apply andb_true_iff in H. destruct H as [H Habc].
  apply andb_true_iff in H. destruct H as [Hnan Hsym].
  rewrite forallb_forall in Habc. specialize (Habc c Hc).
  apply andb_true_iff in Habc. destruct Habc as [Habc Hgt].
  apply andb_true_iff in Habc. destruct Habc as [Heq Hlt].
  split; [exact Hrefl |]. split; [apply negb_true_iff, Hnan |].
  split; [intros E; rewrite E in Hsym; exact Hsym |].
  split; [intros E1 E2; rewrite E1, E2 in Heq; exact Heq |].
  split; [intros E1 E2; rewrite E1, E2 in Hlt; exact Hlt |].
  intros E1 E2. rewrite E1, E2 in Hgt. exact Hgt.
Qed.

Lemma eqC_not_gtC (a b : A) : eqC compareFn a b = true -> gtC compareFn a b = false.
Proof.
  unfold eqC, gtC, is_zero. intros H. apply andb_true_iff in H.
  apply negb_true_iff. exact (proj2 H).
Qed.

Lemma eqC_not_ltC (a b : A) : eqC compareFn a b = true -> ltC compareFn a b = false.
Proof.
  unfold eqC, ltC, is_zero. intros H. apply andb_true_iff in H. destruct H as [H _].
  apply andb_true_iff in H. apply negb_true_iff. exact (proj2 H).
Qed.

(** One of [<C], [=C] and [>C] holds when the answer is a number. *)
Lemma trichotomy (a b : A) :
  is_NaN (compareFn a b) = false ->
  ltC compareFn a b = true \/ eqC compareFn a b = true \/ gtC compareFn a b = true.
Proof.
  unfold ltC, eqC, gtC, is_zero. intros ->.
  destruct (is_negative (compareFn a b)); [left; reflexivity |].
  destruct (is_positive (compareFn a b)); auto.
Qed.

(** [a >C b] gives [b <C a], and [a <C b] gives [b >C a]. *)
Lemma consistent_gt_lt (l : list A) (a b : A) :
  consistent_on compareFn l = true -> In a l -> In b l ->
  gtC compareFn a b = true -> ltC compareFn b a = true.
Proof.
  intros Hc Ha Hb Hgt.
  destruct (consistent_on_spec l a b a Hc Ha Hb Ha) as (Haa & _ & _ & _ & _ & Hgtt).
  destruct (consistent_on_spec l b a b Hc Hb Ha Hb) as (_ & Hnan & Hsym & _).
  destruct (trichotomy b a Hnan) as [Hlt | [Heq | Hgt']]; [exact Hlt | |].
  - apply Hsym, eqC_not_gtC in Heq. congruence.
  - apply eqC_not_gtC in Haa. rewrite (Hgtt Hgt Hgt') in Haa. discriminate.
Qed.

Lemma consistent_lt_gt (l : list A) (a b : A) :
  consistent_on compareFn l = true -> In a l -> In b l ->
  ltC compareFn a b = true -> gtC compareFn b a = true.
Proof.
  intros Hc Ha Hb Hlt.
  destruct (consistent_on_spec l a b a Hc Ha Hb Ha) as (Haa & _ & _ & _ & Hltt & _).
  destruct (consistent_on_spec l b a b Hc Hb Ha Hb) as (_ & Hnan & Hsym & _).
  destruct (trichotomy b a Hnan) as [Hlt' | [Heq | Hgt]]; [| | exact Hgt].
  - apply eqC_not_ltC in Haa. rewrite (Hltt Hlt Hlt') in Haa. discriminate.
  - apply Hsym, eqC_not_ltC in Heq. congruence.
Qed.

Lemma consistent_on_total (l : list A) (a b : A) :
  consistent_on compareFn l = true -> In a l -> In b l ->
  before compareFn a b \/ before compareFn b a.
Proof.
  intros Hc Ha Hb. unfold before.
  destruct (is_positive (compareFn a b)) eqn:Hab; [right | left; reflexivity].
  destruct (is_positive (compareFn b a)) eqn:Hba; [| reflexivity].
  destruct (consistent_on_spec l a b a Hc Ha Hb Ha) as (Haa & _ & _ & _ & _ & Hgtt).
  apply eqC_not_gtC in Haa. rewrite (Hgtt Hab Hba) in Haa. discriminate.
Qed.

Lemma consistent_on_trans (l : list A) (a b c : A) :
  consistent_on compareFn l = true -> In a l -> In b l -> In c l ->
  before compareFn a b -> before compareFn b c -> before compareFn a c.
Proof.
  intros Hc Ha Hb Hcl Hab Hbc. unfold before in *.
  destruct (is_positive (compareFn a c)) eqn:Hac; [exfalso | reflexivity].
  pose proof (consistent_gt_lt l a c Hc Ha Hcl Hac) as Hca.
  destruct (consistent_on_spec l a b c Hc Ha Hb Hcl) as (Haa & Hnab & _ & Heqt & Hltt & _).
  destruct (consistent_on_spec l b c a Hc Hb Hcl Ha) as (_ & Hnbc & Hsbc & _ & Hbca & _).
  destruct (consistent_on_spec l c a b Hc Hcl Ha Hb) as (_ & _ & _ & _ & Hcab & _).
  destruct (consistent_on_spec l a b a Hc Ha Hb Ha) as (_ & _ & Hsab & _).
  destruct (trichotomy a b Hnab) as [L1 | [E1 | G1]];
    [| | unfold gtC in G1; congruence];
    (destruct (trichotomy b c Hnbc) as [L2 | [E2 | G2]];
     [| | unfold gtC in G2; congruence]).
  - pose proof (Hltt L1 L2) as L3.
    destruct (consistent_on_spec l a c a Hc Ha Hcl Ha) as (_ & _ & _ & _ & Hx & _).
    apply eqC_not_ltC in Haa. rewrite (Hx L3 Hca) in Haa. discriminate.
  - pose proof (Hcab Hca L1) as Lcb.
    apply Hsbc, eqC_not_ltC in E2. congruence.
  - pose proof (Hbca L2 Hca) as Lba.
    apply Hsab, eqC_not_ltC in E1. congruence.
  - pose proof (Heqt E1 E2) as E3. apply eqC_not_gtC in E3.
    unfold gtC in E3. congruence.
Qed.

(** The sorted part, from its last element to its first, stays sorted
    when an element enters it. *)
Lemma sort_insert_sorted (x : A) (sorted : list A) :
  StronglySorted (fun a b => before compareFn b a) sorted ->
  (forall y, In y sorted -> ltC compareFn x y = false -> before compareFn y x) ->
  (forall y z, In y sorted -> In z sorted ->
     before compareFn z y -> before compareFn y x -> before compareFn z x) ->
  (forall y, In y sorted -> ltC compareFn x y = true -> before compareFn x y) ->
  StronglySorted (fun a b => before compareFn b a) (sort_insert compareFn x sorted).
Proof.
  induction 1 as [|y l Hl IH Hy]; intros Hge Htrans Hlt; simpl.
  - constructor; constructor.
  - destruct (is_negative (compareFn x y)) eqn:Hxy.
    + constructor.
      * apply IH.
        -- intros z Hz. apply Hge. right. exact Hz.
        -- intros z w Hz Hw. apply Htrans; right; assumption.
        -- intros z Hz. apply Hlt. right. exact Hz.
      * eapply Permutation_Forall; [apply Permutation_sym, sort_insert_perm |].
        constructor; [| exact Hy].
        apply Hlt; [left; reflexivity | exact Hxy].
    + assert (Hyx : before compareFn y x) by (apply Hge; [left; reflexivity | exact Hxy]).
      constructor; [constructor; assumption |].
      constructor; [exact Hyx |].
      apply List.Forall_forall. intros z Hz.
      apply (Htrans y z); simpl; auto.
      eapply List.Forall_forall in Hy; [exact Hy | exact Hz].
Qed.

Lemma sort_fold_sorted (l0 l sorted : list A) :
  consistent_on compareFn l0 = true ->
  incl l l0 -> incl sorted l0 ->
  StronglySorted (fun a b => before compareFn b a) sorted ->
  StronglySorted (fun a b => before compareFn b a)
    (List.fold_left (fun sorted x => sort_insert compareFn x sorted) l sorted).
Proof.
  intros Hc. revert sorted. induction l as [|x l IH]; intros sorted Hl Hs Hsorted;
    [exact Hsorted |].
  simpl. assert (Hx : In x l0) by (apply Hl; left; reflexivity).
  apply IH.
  - intros y Hy. apply Hl. right. exact Hy.
  - intros y Hy. eapply Permutation_in in Hy; [| apply sort_insert_perm].
    destruct Hy as [<- | Hy]; [exact Hx | apply Hs, Hy].
  - apply sort_insert_sorted; [exact Hsorted | | |].
    + intros y Hy Hxy. unfold before.
      destruct (is_positive (compareFn y x)) eqn:Hyx; [| reflexivity].
      pose proof (consistent_gt_lt l0 y x Hc (Hs y Hy) Hx Hyx) as Hlt.
      unfold ltC in *. congruence.
    + intros y z Hy Hz. apply (consistent_on_trans l0); auto.
    + intros y Hy Hxy. unfold before.
      destruct (is_positive (compareFn x y)) eqn:Hgt; [| reflexivity].
      pose proof (consistent_gt_lt l0 x y Hc Hx (Hs y Hy) Hgt) as Hyx.
      pose proof (consistent_lt_gt l0 y x Hc (Hs y Hy) Hx Hyx) as Hgt'.
      destruct (consistent_on_spec l0 x y x Hc Hx (Hs y Hy) Hx)
        as (Hxx & _ & _ & _ & Hltt & _).
      pose proof (Hltt Hxy Hyx) as Hbad.
      apply eqC_not_ltC in Hxx. congruence.
Qed.

(** With a consistent comparator the result is in the order of the
    comparator. *)
Lemma array_sort_sorted (l : list A) :
  consistent_on compareFn l = true ->
  StronglySorted (before compareFn) (array_sort compareFn l).
Proof.
  intros Hc. unfold array_sort.
  apply (sorted_rev (fun a b => before compareFn b a)).
  apply (sort_fold_sorted l); [exact Hc | | | constructor].
  - intros y Hy. exact Hy.
  - intros y [].
Qed.

(** With a consistent comparator the elements that compare equal keep
    the order they had: the sort is stable. *)
Lemma sort_insert_stable (l0 : list A) (a x : A) (sorted : list A) :
  consistent_on compareFn l0 = true ->
  In a l0 -> In x l0 -> incl sorted l0 ->
  List.filter (eqC compareFn a) (sort_insert compareFn x sorted) =
  List.filter (eqC compareFn a) (x :: sorted).
Proof.
  intros Hc Ha Hx. induction sorted as [|y l IH]; intros Hs; [reflexivity |].
  assert (Hy : In y l0) by (apply Hs; left; reflexivity).
  simpl sort_insert. destruct (is_negative (compareFn x y)) eqn:Hxy; [| reflexivity].
  simpl List.filter in *. rewrite IH by (intros z Hz; apply Hs; right; exact Hz).
  destruct (eqC compareFn a y) eqn:Hay, (eqC compareFn a x) eqn:Hax; try reflexivity.
  exfalso.
  destruct (consistent_on_spec l0 a x y Hc Ha Hx Hy) as (_ & _ & Hsym & _).
  destruct (consistent_on_spec l0 x a y Hc Hx Ha Hy) as (_ & _ & _ & Heqt & _).
  pose proof (Heqt (Hsym Hax) Hay) as Exy. apply eqC_not_ltC in Exy.
  unfold ltC in Exy. congruence.
Qed.

Lemma array_sort_stable (l : list A) (a : A) :
  consistent_on compareFn l = true -> In a l ->
  List.filter (eqC compareFn a) (array_sort compareFn l) =
  List.filter (eqC compareFn a) l.
Proof.
  intros Hc Ha. unfold array_sort.
  assert (Hgen : forall l' sorted, incl l' l -> incl sorted l ->
            List.filter (eqC compareFn a)
              (rev (List.fold_left (fun sorted x => sort_insert compareFn x sorted)
                      l' sorted)) =
            List.filter (eqC compareFn a) (rev sorted ++ l')).
  { induction l' as [|x l' IH]; intros sorted Hl Hs; simpl.
    - rewrite app_nil_r. reflexivity.
    - assert (Hx : In x l) by (apply Hl; left; reflexivity).
      rewrite IH.
      + rewrite !List.filter_app, !List.filter_rev.
        rewrite (sort_insert_stable l a x sorted Hc Ha Hx Hs).
        simpl List.filter. destruct (eqC compareFn a x); [| reflexivity].
        simpl rev. rewrite <- app_assoc. reflexivity.
      + intros y Hy. apply Hl. right. exact Hy.
      + intros y Hy. eapply Permutation_in in Hy; [| apply sort_insert_perm].
        destruct Hy as [<- | Hy]; [exact Hx | apply Hs, Hy]. }
  rewrite (Hgen l []); [reflexivity | intros y Hy; exact Hy | intros y []].
Qed.

End ArraySortFacts.

(** ** The deep search *)

Section DeepSearchFacts.

Variable h : heap.
Variable text : jsstring.

Abbreviation helper := (deepSearchHelper h text).

Lemma helper_S (n : nat) (obj : value) (visited : gset loc) :
  helper (S n) obj visited =
  match obj with
  | VString s => Some (includes (toLowerCase s) text, visited)
  | VObject l =>
      if decide (l ∈ visited) then Some (false, visited)
      else for_in (helper n) (props h l) ({[l]} ∪ visited)
  | _ => Some (false, visited)
  end.
Proof. reflexivity. Qed.

(** *** Termination: the depth of the recursion is bounded by the
    number of objects that are not visited yet. *)

Lemma for_in_returns (rec : value -> gset loc -> option (bool * gset loc))
    (n : nat) :
  (forall v vis, size (dom h ∖ vis) < n ->
     exists b vis', rec v vis = Some (b, vis') /\ vis ⊆ vis') ->
  forall ps vis, size (dom h ∖ vis) < n ->
    exists b vis', for_in rec ps vis = Some (b, vis') /\ vis ⊆ vis'.
Proof.
  intros Hrec. induction ps as [|[name child] ps IH]; intros vis Hvis; simpl.
  - exists false, vis. split; [reflexivity | set_solver].
  - destruct (Hrec child vis Hvis) as (b & vis1 & -> & Hsub).
    destruct b.
    + exists true, vis1. split; [reflexivity | exact Hsub].
    + destruct (IH vis1) as (b & vis2 & Heq & Hsub2).
      * eapply Nat.le_lt_trans; [| exact Hvis].
        apply subseteq_size. clear -Hsub. set_solver.
      * exists b, vis2. split; [exact Heq | etrans; eassumption].
Qed.

Lemma helper_returns (n : nat) (obj : value) (visited : gset loc) :
  size (dom h ∖ visited) < n ->
  exists b visited', helper n obj visited = Some (b, visited') /\ visited ⊆ visited'.
Proof.
  revert obj visited. induction n as [|n IH]; intros obj visited Hn; [lia |].
  rewrite helper_S.
  destruct obj as [| | b | x | s | l]; try (eexists _, visited; split; [reflexivity | set_solver]).
  destruct (decide (l ∈ visited)) as [Hin | Hnin].
  - exists false, visited. split; [reflexivity | set_solver].
  - destruct (h !! l) as [ps |] eqn:Hl.
    + destruct (for_in_returns (helper n) n IH (props h l) ({[l]} ∪ visited))
        as (b & vis' & Heq & Hsub).
      * assert (Hlt : size (dom h ∖ ({[l]} ∪ visited)) < size (dom h ∖ visited)).
        { apply subset_size. apply elem_of_dom_2 in Hl. clear -Hl Hnin. set_solver. }
        lia.
      * exists b, vis'. split; [exact Heq | clear -Hsub; set_solver].
    + unfold props. rewrite Hl. simpl.
      exists false, ({[l]} ∪ visited). split; [reflexivity | set_solver].
Qed.

(** More fuel does not change a result. *)
Lemma for_in_mono (rec rec' : value -> gset loc -> option (bool * gset loc)) :
  (forall v vis r, rec v vis = Some r -> rec' v vis = Some r) ->
  forall ps vis r, for_in rec ps vis = Some r -> for_in rec' ps vis = Some r.
Proof.
  intros Hrec. induction ps as [|[name child] ps IH]; intros vis r; simpl; [auto |].
  destruct (rec child vis) as [[b vis1] |] eqn:Hc; [| discriminate].
  rewrite (Hrec _ _ _ Hc). destruct b; [auto | apply IH].
Qed.

Lemma helper_mono (n m : nat) (obj : value) (visited : gset loc)
    (r : bool * gset loc) :
  n <= m -> helper n obj visited = Some r -> helper m obj visited = Some r.
Proof.
  revert m obj visited r. induction n as [|n IH]; intros m obj visited r Hnm; [discriminate |].
  destruct m as [|m]; [lia |]. rewrite !helper_S.
  destruct obj; auto. destruct (decide (l ∈ visited)); [auto |].
  apply for_in_mono. intros v vis r'. apply IH. lia.
Qed.

(** *** Soundness: a match comes from a reachable string. *)

Lemma helper_sound (n : nat) (obj : value) (visited visited' : gset loc) :
  helper n obj visited = Some (true, visited') ->
  exists s, reach h obj s /\ matching text s.
Proof.
  revert obj visited visited'. induction n as [|n IH]; intros obj visited visited'; [discriminate |].
  rewrite helper_S. destruct obj as [| | b | x | s | l]; try discriminate.
  - intros [= Hs _]. exists s. split; [constructor | exact Hs].
  - destruct (decide (l ∈ visited)); [discriminate |].
    generalize ({[l]} ∪ visited). intros vis0.
    assert (Hps : forall name child, In (name, child) (props h l) ->
                                   In (name, child) (props h l)) by auto.
    revert Hps. generalize (props h l) at 1 3. intros ps. revert vis0.
    induction ps as [|[name child] ps IHps]; intros vis0 Hps; simpl; [discriminate |].
    destruct (helper n child vis0) as [[b vis1] |] eqn:Hc; [| discriminate].
    destruct b.
    + intros _. destruct (IH _ _ _ Hc) as (s & Hr & Hm).
      exists s. split; [| exact Hm].
      eapply reach_member; [apply (Hps name child); left; reflexivity | exact Hr].
    + apply IHps. intros nm c Hin. apply Hps. right. exact Hin.
Qed.

(** *** Completeness: when the answer is no, every object that was
    visited has all its members covered text: strings that do not match,
    objects that were visited, or other values. *)

Lemma covered_mono (V V' : gset loc) (v : value) :
  V ⊆ V' -> covered text V v -> covered text V' v.
Proof. destruct v; simpl; auto. Qed.

Lemma for_in_complete (rec : value -> gset loc -> option (bool * gset loc)) :
  (forall v V V', rec v V = Some (false, V') ->
     V ⊆ V' /\ covered text V' v /\
     forall l, l ∈ V' -> l ∉ V -> members_covered h text V' l) ->
  forall ps V V', for_in rec ps V = Some (false, V') ->
     V ⊆ V' /\ (forall name child, In (name, child) ps -> covered text V' child) /\
     forall l, l ∈ V' -> l ∉ V -> members_covered h text V' l.
Proof.
  intros Hrec. induction ps as [|[name child] ps IH]; intros V V'; simpl.
  - intros [= <-]. repeat split; [set_solver | contradiction | contradiction].
  - destruct (rec child V) as [[b V1] |] eqn:Hc; [| discriminate].
    destruct b; [discriminate |]. intros Hrest.
    destruct (Hrec _ _ _ Hc) as (Hsub1 & Hcov1 & Hnew1).
    destruct (IH _ _ Hrest) as (Hsub2 & Hcov2 & Hnew2).
    split; [etrans; eassumption |]. split.
    + intros nm c [[= <- <-] | Hin].
      * eapply covered_mono; eassumption.
      * eapply Hcov2; eassumption.
    + intros l Hl HlV. destruct (decide (l ∈ V1)) as [Hl1 | Hl1].
      * intros nm c Hin. eapply covered_mono; [exact Hsub2 |].
        eapply Hnew1; eassumption.
      * apply Hnew2; assumption.
Qed.

Lemma helper_complete (n : nat) (obj : value) (V V' : gset loc) :
  helper n obj V = Some (false, V') ->
  V ⊆ V' /\ covered text V' obj /\
  forall l, l ∈ V' -> l ∉ V -> members_covered h text V' l.
Proof.
  revert obj V V'. induction n as [|n IH]; intros obj V V'; [discriminate |].
  rewrite helper_S.
  destruct obj as [| | b | x | s | l];
    try (intros [= <-]; repeat split; [set_solver | contradiction]).
  - intros [= Hs <-]. repeat split; [set_solver | exact Hs | contradiction].
  - destruct (decide (l ∈ V)) as [Hin | Hnin].
    + intros [= <-]. repeat split; [set_solver | exact Hin | contradiction].
    + intros Hloop.
      destruct (for_in_complete (helper n) IH _ _ _ Hloop) as (Hsub & Hcov & Hnew).
      split; [clear -Hsub; set_solver |]. split; [simpl; clear -Hsub; set_solver |].
      intros l' Hl' Hl'V. destruct (decide (l' = l)) as [-> | Hne].
      * exact Hcov.
      * apply Hnew; [exact Hl' | clear -Hne Hl'V; set_solver].
Qed.

Lemma covered_no_match (V : gset loc) (obj : value) (s : jsstring) :
  (forall l, l ∈ V -> members_covered h text V l) ->
  reach h obj s -> covered text V obj -> ~ matching text s.
Proof.
  intros Hclosed. induction 1 as [s | l name child s Hin Hr IH]; simpl.
  - unfold matching. congruence.
  - intros Hl. apply IH. eapply Hclosed; eassumption.
Qed.

(** *** The top-level call *)

Lemma deep_fuel_enough : size (dom h ∖ (∅ : gset loc)) < deep_fuel h.
Proof.
  unfold deep_fuel. apply Nat.lt_succ_r, subseteq_size. set_solver.
Qed.

Lemma deepSearchCall_true (obj : value) :
  deepSearchCall h text obj = true <-> exists s, reach h obj s /\ matching text s.
Proof.
  unfold deepSearchCall.
  destruct (helper_returns (deep_fuel h) obj ∅ deep_fuel_enough) as (b & V' & Heq & _).
  rewrite Heq. destruct b.
  - split; [intros _; eapply helper_sound; exact Heq | reflexivity].
  - split; [discriminate |]. intros (s & Hr & Hm). exfalso.
    destruct (helper_complete _ _ _ _ Heq) as (_ & Hcov & Hnew).
    eapply covered_no_match; [| exact Hr | exact Hcov | exact Hm].
    intros l Hl. apply Hnew; [exact Hl | apply not_elem_of_empty].
Qed.

End DeepSearchFacts.

(** ** Subsequences and order *)

Lemma filter_sublist {A} (f : A -> bool) (l : list A) :
  List.filter f l `sublist_of` l.
Proof.
  induction l as [|x l IH]; simpl; [constructor |].
  destruct (f x); constructor; exact IH.
Qed.

Lemma take_until_sublist (len : nat) (lim : number) (l : list entry) :
  take_until len lim l `sublist_of` l.
Proof.
  revert len. induction l as [|e l IH]; intros len; [constructor |].
  rewrite take_until_cons. constructor.
  destruct (length_ge (S len) lim); [apply sublist_nil_l | apply IH].
Qed.

Lemma map_sublist {A B} (f : A -> B) (l1 l2 : list A) :
  l1 `sublist_of` l2 -> List.map f l1 `sublist_of` List.map f l2.
Proof. induction 1; simpl; constructor; assumption. Qed.

Lemma sublist_In {A} (l1 l2 : list A) (x : A) :
  l1 `sublist_of` l2 -> In x l1 -> In x l2.
Proof. induction 1; simpl; tauto. Qed.

Lemma sublist_sorted {A} (R : A -> A -> Prop) (l1 l2 : list A) :
  l1 `sublist_of` l2 -> StronglySorted R l2 -> StronglySorted R l1.
Proof.
  induction 1 as [| x l1 l2 Hsub IH | x l1 l2 Hsub IH]; intros Hs.
  - constructor.
  - inversion Hs as [| ? ? Hs' Hx]; subst. constructor; [apply IH, Hs' |].
    apply List.Forall_forall. intros y Hy.
    eapply List.Forall_forall; [exact Hx |]. eapply sublist_In; eassumption.
  - inversion Hs; subst. apply IH. assumption.
Qed.

Lemma sorted_keys_NoDup (l : list jsstring) : StronglySorted key_lt l -> List.NoDup l.
Proof.
  induction 1 as [| x l Hs IH Hx]; constructor; [| exact IH].
  intros Hin. eapply List.Forall_forall in Hx; [| exact Hin].
  unfold key_lt in Hx. rewrite key_ltb_irrefl in Hx. discriminate.
Qed.

(** With unique keys, a pair of the collection holds the value stored
    for its key. *)
Lemma db_get_In (db : Database) (k : jsstring) (v : value) :
  db_ok db -> In (k, v) db -> db_get db k = Some v.
Proof.
  unfold db_ok. induction db as [|[k' v'] db IH]; simpl; [contradiction |].
  intros Hs. inversion Hs as [| ? ? Hs' Hk']; subst.
  intros [[= -> ->] | Hin].
  - destruct (decide (k = k)); [reflexivity | contradiction].
  - destruct (decide (k' = k)) as [-> | Hne]; [| apply IH; assumption].
    exfalso. eapply List.Forall_forall in Hk'; [| apply (in_map fst _ _ Hin)].
    unfold key_lt in Hk'. simpl in Hk'. rewrite key_ltb_irrefl in Hk'. discriminate.
Qed.

(** ** [search] as a whole *)

Lemma search_fst (h : heap) (db : Database) (o : SearchOptions) :
  fst (search h db (Some o)) =
  match sort o with
  | Some compareFn => array_sort (by_value compareFn) (accumulated h db o)
  | None => accumulated h db o
  end.
Proof.
  unfold search. rewrite fst_bind. cbv beta. simpl default.
  rewrite for_of_fst. reflexivity.
Qed.

Lemma search_snd (h : heap) (db : Database) (o : SearchOptions) :
  snd (search h db (Some o)) =
  snd (for_of (getRange db (rangeOpts o)) (allFilters h o)
         (default PosInfinity (limit o)) []).
Proof. unfold search. rewrite snd_bind. cbv beta. simpl. apply app_nil_r. Qed.

Lemma search_absent (h : heap) (db : Database) :
  search h db None = search h db (Some no_options).
Proof. reflexivity. Qed.

Lemma getRange_sublist (db : Database) (r : RangeOptions) :
  reverse r = false -> getRange db r `sublist_of` db.
Proof. unfold getRange. intros ->. apply filter_sublist. Qed.

Lemma getRange_In (db : Database) (r : RangeOptions) (e : entry) :
  In e (getRange db r) -> In e db.
Proof.
  unfold getRange. intros Hin.
  assert (Hin' : In e (List.filter (fun e => in_range r (fst e)) db)).
  { destruct (reverse r); [apply in_rev |]; exact Hin. }
  apply List.filter_In in Hin'. tauto.
Qed.

Lemma filter_true {A} (f : A -> bool) (l : list A) :
  (forall x, In x l -> f x = true) -> List.filter f l = l.
Proof.
  induction l as [|x l IH]; simpl; intros Hf; [reflexivity |].
  rewrite (Hf x) by (left; reflexivity). f_equal. apply IH. auto.
Qed.

(** Without a prefix the whole collection is scanned. *)
Lemma getRange_all (db : Database) :
  getRange db {| start := Some []; end_ := None; reverse := false |} = db.
Proof.
  unfold getRange. simpl. apply filter_true. intros e _.
  unfold in_range, key_leb. simpl. rewrite key_ltb_nil_r. reflexivity.
Qed.

(** The steps of a loop that never reaches its limit. *)
Lemma for_of_trace_unlimited (it : list entry) (fs : list predicate)
    (lim : number) (acc : list entry) :
  (forall n, length_ge n lim = false) ->
  snd (for_of it fs lim acc) =
  flat_map (fun e => Pull (fst e) :: snd (skip_test fs (snd e) (fst e))) it.
Proof.
  intros Hlim. revert acc. induction it as [|[k v] it IH]; intros acc; [reflexivity |].
  rewrite for_of_cons, !snd_bind. simpl flat_map. simpl fst. simpl snd at 1 3.
  simpl app. do 2 f_equal.
  destruct (fst (skip_test fs v k)); [apply IH |].
  rewrite Hlim. apply IH.
Qed.

(** ** The example collections are well formed *)

Lemma products_ok : db_ok Examples.products.
Proof. unfold db_ok. simpl. repeat constructor. Defined.

Lemma products_below : keys_below_sentinel Examples.products.
Proof. unfold keys_below_sentinel. repeat constructor. Defined.

(** ** The tests of the repository *)

(** "should work with searchHelper": the products below 100, by name. *)
Example test_searchHelper :
  List.map (fun r => get Examples.h_products (snd r) (js "name"))
    (fst (search Examples.h_products Examples.products
            (Some (set_filters no_options (Some [Examples.cheap]))))) =
  [VString (js "Mouse"); VString (js "Keyboard")].
Proof. vm_compute. reflexivity. Qed.

(** "should work with deep search": at least one item matches "pen". *)
Example test_deep_search :
  1 <= length (fst (search Examples.h_items Examples.items
                      (Some (set_deepSearch no_options (Some (js "pen")))))).
Proof. vm_compute. lia. Qed.

(** ** The claims *)

(** C1. For every prefix [P] and every collection whose keys hold no code
    point at or above U+FFFF, [search(collection, {prefix: P})] returns
    exactly the entries whose key starts with [P], in ascending key
    order; they are the entries of the range [[P, P + U+FFFF)], which is
    the range that is scanned for a non-empty [P]. *)
Theorem search_prefix_exact (h : heap) (db : Database) (P : jsstring) :
  db_ok db ->
  keys_below_sentinel db ->
  let result := fst (search h db (Some (set_prefix no_options (Some P)))) in
  result = List.filter (fun e => startsWith (fst e) P) db /\
  (forall e, In e result <-> In e db /\ exists r, fst e = P ++ r) /\
  StronglySorted key_lt (List.map fst result) /\
  result = List.filter
             (fun e => key_leb P (fst e) && key_ltb (fst e) (P ++ [U_FFFF])) db /\
  (P <> [] ->
   rangeOpts (set_prefix no_options (Some P)) =
   {| start := Some P; end_ := Some (P ++ [U_FFFF]); reverse := false |}).
Proof.
  intros Hok Hbelow result.
  assert (Hres : result = List.filter (fun e => startsWith (fst e) P) db).
  { unfold result. rewrite search_fst. simpl sort. cbv iota.
    unfold accumulated, matching_pairs. simpl limit. simpl default.
    rewrite take_until_unlimited by reflexivity.
    rewrite filter_true by reflexivity.
    unfold getRange. simpl reverse. cbv iota.
    apply filter_ext_in. intros e He.
    eapply List.Forall_forall in Hbelow; [| exact He].
    unfold in_range, rangeOpts. simpl prefix. simpl default. simpl start. simpl end_.
    destruct P as [|c P]; simpl truthy_string; cbv iota.
    - unfold key_leb. rewrite key_ltb_nil_r. reflexivity.
    - apply prefix_range, Hbelow. }
  split; [exact Hres |]. split; [| split; [| split]].
  - intros e. rewrite Hres, List.filter_In, startsWith_app. reflexivity.
  - rewrite Hres. eapply sublist_sorted; [| exact Hok].
    apply map_sublist, filter_sublist.
  - rewrite Hres. apply filter_ext_in. intros e He.
    eapply List.Forall_forall in Hbelow; [| exact He].
    symmetry. apply prefix_range, Hbelow.
  - intros HP. destruct P as [|c P]; [contradiction | reflexivity].
Qed.

Lemma search_prefix_exact_witness :
  db_ok Examples.products /\
  keys_below_sentinel Examples.products /\
  fst (search Examples.h_products Examples.products
         (Some (set_prefix no_options (Some (js "p"))))) =
  [(js "p1", VObject 1); (js "p2", VObject 2); (js "p3", VObject 3)].
Proof.
  split; [exact products_ok |].
  split; [exact products_below |].
  destruct (search_prefix_exact Examples.h_products Examples.products (js "p")
              products_ok products_below) as [H _].
  rewrite H. reflexivity.
Defined.

(** C2. With the filters [[f1, f2]], [search] returns exactly the entries
    for which both [f1(value, key)] and [f2(value, key)] are true; on each
    pair [f1] is called first and [f2] only when [f1] holds. With no
    options at all every entry of the collection is returned, in key
    order, and no predicate is called. *)
Theorem search_filters_and (h : heap) (db : Database) (f1 f2 : predicate) :
  let o := set_filters no_options (Some [f1; f2]) in
  fst (search h db (Some o)) =
    List.filter (fun e => f1 (snd e) (fst e) && f2 (snd e) (fst e)) db /\
  snd (search h db (Some o)) =
    flat_map (fun e => Pull (fst e) :: Call 0 (fst e) ::
                       if f1 (snd e) (fst e) then [Call 1 (fst e)] else []) db /\
  fst (search h db None) = db /\
  snd (search h db None) = List.map (fun e => Pull (fst e)) db /\
  (db_ok db ->
   StronglySorted key_lt (List.map fst (fst (search h db (Some o)))) /\
   StronglySorted key_lt (List.map fst (fst (search h db None)))).
Proof.
  intros o.
  assert (Hrange : forall o', prefix o' = None -> rangeOptions o' = None ->
                              getRange db (rangeOpts o') = db).
  { intros o' Hp Hr. unfold rangeOpts. rewrite Hp, Hr. apply getRange_all. }
  assert (H1 : fst (search h db (Some o)) =
               List.filter (fun e => f1 (snd e) (fst e) && f2 (snd e) (fst e)) db).
  { rewrite search_fst. simpl sort. cbv iota.
    unfold accumulated, matching_pairs. simpl limit. simpl default.
    rewrite take_until_unlimited by reflexivity.
    rewrite Hrange by reflexivity.
    apply filter_ext. intros e. unfold passes, o. simpl.
    rewrite andb_true_r. reflexivity. }
  assert (H2 : fst (search h db None) = db).
  { rewrite search_absent, search_fst. simpl sort. cbv iota.
    unfold accumulated, matching_pairs. simpl limit. simpl default.
    rewrite take_until_unlimited by reflexivity.
    rewrite Hrange by reflexivity. apply filter_true. reflexivity. }
  split; [exact H1 |]. split; [| split; [exact H2 | split]].
  - rewrite search_snd, Hrange by reflexivity.
    rewrite for_of_trace_unlimited by reflexivity.
    apply flat_map_ext. intros [k v]. simpl fst. simpl snd.
    unfold o, allFilters, skip_test. simpl.
    destruct (f1 v k), (f2 v k); reflexivity.
  - rewrite search_absent, search_snd, Hrange by reflexivity.
    rewrite for_of_trace_unlimited by reflexivity.
    induction db as [|e db' IH]; simpl; [reflexivity | f_equal; exact IH].
  - intros Hok. split.
    + rewrite H1. eapply sublist_sorted; [| exact Hok].
      apply map_sublist, filter_sublist.
    + rewrite H2. exact Hok.
Qed.

Lemma search_filters_and_witness :
  db_ok Examples.products /\
  fst (search Examples.h_products Examples.products
         (Some (set_filters no_options
                  (Some [Examples.cheap; Examples.not_too_cheap])))) =
  [(js "p3", VObject 3)].
Proof.
  split; [exact products_ok |].
  destruct (search_filters_and Examples.h_products Examples.products
              Examples.cheap Examples.not_too_cheap) as [H _].
  rewrite H. reflexivity.
Defined.



(** C8. The deep search returns on every value of every heap, also when
    objects refer back to themselves: the depth of the recursion is at
    most the number of objects plus one, more fuel gives the same answer,
    and the answer is a match exactly when a reachable string contains
    the text. An object that is already in the visited set answers false
    without being entered again. *)
Theorem deep_search_terminates (h : heap) (text : jsstring) (obj : value) :
  (exists b visited,
     deepSearchHelper h text (deep_fuel h) obj ∅ = Some (b, visited) /\
     (forall n, deep_fuel h <= n ->
                deepSearchHelper h text n obj ∅ = Some (b, visited)) /\
     (b = true <-> exists s, reach h obj s /\ matching text s)) /\
  (forall n l visited,
     l ∈ visited ->
     deepSearchHelper h text (S n) (VObject l) visited = Some (false, visited)) /\
  fst <$> deepSearchHelper Examples.h_cycle (js "pen")
            (deep_fuel Examples.h_cycle) (VObject 1) ∅ = Some true /\
  fst <$> deepSearchHelper Examples.h_cycle (js "ink")
            (deep_fuel Examples.h_cycle) (VObject 1) ∅ = Some false.
Proof.
  split; [| split; [| split; vm_compute; reflexivity]].
  - destruct (helper_returns h text (deep_fuel h) obj ∅ (deep_fuel_enough h))
      as (b & visited & Heq & _).
    exists b, visited. split; [exact Heq |]. split.
    + intros n Hn. eapply helper_mono; eassumption.
    + rewrite <- deepSearchCall_true. unfold deepSearchCall. rewrite Heq. reflexivity.
  - intros n l visited Hl. rewrite helper_S.
    destruct (decide (l ∈ visited)); [reflexivity | contradiction].
Qed.

Lemma deep_search_terminates_witness :
  (1%positive ∈ ({[1%positive]} : gset loc)) /\
  deepSearchHelper Examples.h_cycle (js "pen") 1 (VObject 1) {[1%positive]} =
  Some (false, {[1%positive]}).
Proof.
  assert (Hin : 1%positive ∈ ({[1%positive]} : gset loc))
    by (apply elem_of_singleton; reflexivity).
  split; [exact Hin |].
  destruct (deep_search_terminates Examples.h_cycle (js "pen") VNull)
    as (_ & H & _).
  exact (H 0 1%positive {[1%positive]} Hin).
Defined.

(** ** Limit and sort *)

Lemma accumulated_of_nat (h : heap) (db : Database) (o : SearchOptions) (n : nat) :
  0 < n ->
  accumulated h db (set_limit o (Some (of_nat n))) = firstn n (matching_pairs h db o).
Proof.
  intros Hn. unfold accumulated. simpl limit. simpl default.
  rewrite take_until_of_nat by exact Hn. rewrite Nat.sub_0_r. reflexivity.
Qed.

Lemma array_sort_short {A} (compareFn : A -> A -> number) (l : list A) :
  array_sort compareFn (firstn 1 l) = firstn 1 l.
Proof. destruct l as [|x l]; reflexivity. Qed.

(** C4. With a limit and a comparator, the matches are collected in the
    order of the scan until the limit is reached, the scan stops there
    as it does without a comparator, and only the collected list is
    sorted: for a positive integer limit [n], the first [n] matches. For
    [k1{v:5}, k2{v:1}, k3{v:9}, k4{v:2}], limit 2 and the comparator on
    [v], the result is [[k2, k1]], not the two smallest values
    [[k2, k4]]. *)
Theorem search_limit_then_sort (h : heap) (db : Database) (o : SearchOptions)
    (compareFn : value -> value -> number) (lim : number) :
  let o' := set_sort (set_limit o (Some lim)) (Some compareFn) in
  fst (search h db (Some o')) =
    array_sort (by_value compareFn) (fst (search h db (Some (set_sort o' None)))) /\
  snd (search h db (Some o')) = snd (search h db (Some (set_sort o' None))) /\
  (forall n, 0 < n -> lim = of_nat n ->
     fst (search h db (Some o')) =
       array_sort (by_value compareFn) (firstn n (matching_pairs h db o))) /\
  let limited := set_sort (set_limit no_options (Some (of_nat 2)))
                   (Some Examples.by_v) in
  fst (search Examples.h_v Examples.four (Some limited)) =
    [(js "k2", VObject 2); (js "k1", VObject 1)] /\
  fst (search Examples.h_v Examples.four (Some limited)) <>
    [(js "k2", VObject 2); (js "k4", VObject 4)] /\
  firstn 2 (fst (search Examples.h_v Examples.four
                   (Some (set_sort no_options (Some Examples.by_v))))) =
    [(js "k2", VObject 2); (js "k4", VObject 4)].
Proof.
  intros o'.
  split; [| split; [| split; [| split; [| split]]]].
  - rewrite !search_fst. reflexivity.
  - rewrite !search_snd. reflexivity.
  - intros n Hn ->. rewrite search_fst. simpl sort. cbv iota.
    exact (f_equal (array_sort (by_value compareFn))
             (accumulated_of_nat h db (set_sort o (Some compareFn)) n Hn)).
  - vm_compute. reflexivity.
  - intros Heq. vm_compute in Heq. discriminate Heq.
  - vm_compute. reflexivity.
Qed.

Lemma search_limit_then_sort_witness :
  0 < 2 /\
  fst (search Examples.h_v Examples.four
         (Some (set_sort (set_limit no_options (Some (of_nat 2)))
                  (Some Examples.by_v)))) =
  array_sort (by_value Examples.by_v)
    [(js "k1", VObject 1); (js "k2", VObject 2)].
Proof.
  split; [lia |].
  destruct (search_limit_then_sort Examples.h_v Examples.four no_options
              Examples.by_v (of_nat 2)) as (_ & _ & H & _).
  rewrite (H 2 ltac:(lia) eq_refl). reflexivity.
Defined.

(** C5. With a positive integer limit [n] and no comparator, the result
    is the first [n] matching entries in the order of the scan, ascending
    by key unless the caller reversed the scan. The pairs pulled from the
    iterator are a prefix of the sequence; when pairs are left unpulled,
    the result holds [n] entries and the pair pulled last is the [n]-th
    match. Five matching entries with limit 2 give [[k1, k2]], and only
    these two are pulled. *)
Theorem search_limit_first_n (h : heap) (db : Database) (o : SearchOptions)
    (n : nat) :
  0 < n ->
  let o' := set_sort (set_limit o (Some (of_nat n))) None in
  let result := fst (search h db (Some o')) in
  result = firstn n (matching_pairs h db o) /\
  (exists consumed rest,
     getRange db (rangeOpts o) = consumed ++ rest /\
     pulled (snd (search h db (Some o'))) = List.map fst consumed /\
     List.filter (passes (allFilters h o)) consumed = result /\
     (rest <> [] ->
      length result = n /\
      exists before e, consumed = before ++ [e] /\
                       passes (allFilters h o) e = true)) /\
  (db_ok db -> reverse (rangeOpts o) = false ->
   StronglySorted key_lt (List.map fst result)) /\
  fst (search Examples.h_v Examples.five
         (Some (set_limit no_options (Some (of_nat 2))))) =
    [(js "k1", VObject 1); (js "k2", VObject 2)] /\
  pulled (snd (search Examples.h_v Examples.five
                 (Some (set_limit no_options (Some (of_nat 2)))))) =
    [js "k1"; js "k2"].
Proof.
  intros Hn o' result.
  assert (Hres : result = firstn n (matching_pairs h db o)).
  { unfold result. rewrite search_fst. simpl sort. cbv iota.
    exact (accumulated_of_nat h db (set_sort o None) n Hn). }
  split; [exact Hres |]. split; [| split; [| split; vm_compute; reflexivity]].
  - destruct (for_of_pulled (getRange db (rangeOpts o)) (allFilters h o)
                (of_nat n) []) as (consumed & rest & Hit & Hpull & Hfst & Hrest).
    assert (Hloop : fst (for_of (getRange db (rangeOpts o)) (allFilters h o)
                           (of_nat n) []) = result).
    { unfold result. rewrite search_fst. simpl sort. cbv iota.
      unfold accumulated. rewrite for_of_fst. reflexivity. }
    exists consumed, rest. split; [exact Hit |]. split; [| split].
    + rewrite search_snd. exact Hpull.
    + rewrite <- Hloop, Hfst. reflexivity.
    + intros Hne. destruct (Hrest Hne) as [Hge Hlast]. split; [| exact Hlast].
      rewrite Hloop, length_ge_of_nat in Hge. apply Nat.leb_le in Hge.
      assert (Hle : length result <= n) by (rewrite Hres; apply firstn_le_length).
      lia.
  - intros Hok Hrev. rewrite Hres.
    eapply sublist_sorted; [| exact Hok]. apply map_sublist.
    etrans; [apply sublist_take |]. etrans; [apply filter_sublist |].
    apply getRange_sublist, Hrev.
Qed.

Lemma search_limit_first_n_witness :
  0 < 2 /\
  fst (search Examples.h_v Examples.five
         (Some (set_sort (set_limit no_options (Some (of_nat 2))) None))) =
  [(js "k1", VObject 1); (js "k2", VObject 2)].
Proof.
  split; [lia |].
  destruct (search_limit_first_n Examples.h_v Examples.five no_options 2
              ltac:(lia)) as [H _].
  rewrite H. reflexivity.
Defined.

(** C6. A limit that is zero or negative raises no error, but it does not
    give an empty result: the test of the limit comes after the push, so
    the first matching entry is always kept. With limit 0 the products
    give one entry. *)
Theorem search_non_positive_limit (h : heap) (db : Database) (o : SearchOptions)
    (lim : number) :
  non_positive lim ->
  fst (search h db (Some (set_limit o (Some lim)))) =
    firstn 1 (matching_pairs h db o) /\
  fst (search Examples.h_products Examples.products
         (Some (set_limit no_options (Some (of_nat 0))))) =
    [(js "p1", VObject 1)].
Proof.
  intros Hlim. split; [| vm_compute; reflexivity].
  rewrite search_fst.
  assert (Hacc : accumulated h db (set_limit o (Some lim)) =
                 firstn 1 (matching_pairs h db o)).
  { unfold accumulated. simpl limit. simpl default.
    apply take_until_reached, length_ge_non_positive, Hlim. }
  rewrite Hacc. simpl sort. destruct (sort o); [apply array_sort_short | reflexivity].
Qed.

Lemma search_non_positive_limit_witness :
  non_positive (of_nat 0) /\
  fst (search Examples.h_products Examples.products
         (Some (set_limit no_options (Some (of_nat 0))))) =
  [(js "p1", VObject 1)].
Proof.
  assert (H0 : non_positive (of_nat 0)) by (simpl; discriminate).
  split; [exact H0 |].
  destruct (search_non_positive_limit Examples.h_products Examples.products
              no_options (of_nat 0) H0) as [H _].
  rewrite H. reflexivity.
Defined.

(** ** The search term *)

(** [search] reads its options through four values only. *)
Lemma search_congr (h : heap) (db : Database) (o1 o2 : SearchOptions) :
  limit o1 = limit o2 -> sort o1 = sort o2 -> rangeOpts o1 = rangeOpts o2 ->
  allFilters h o1 = allFilters h o2 ->
  search h db (Some o1) = search h db (Some o2).
Proof. unfold search. simpl default. intros -> -> -> ->. reflexivity. Qed.

(** The predicates depend on the two terms through [deepSearch || query]. *)
Lemma allFilters_congr (h : heap) (o1 o2 : SearchOptions) :
  filters o1 = filters o2 ->
  or_else (deepSearch o1) (query o1) = or_else (deepSearch o2) (query o2) ->
  allFilters h o1 = allFilters h o2.
Proof. unfold allFilters, searchText. intros -> ->. reflexivity. Qed.

(** A term that is absent and a term that is empty add no predicate. *)
Lemma allFilters_no_term (h : heap) (o : SearchOptions) :
  or_else (deepSearch o) (query o) = None \/
  or_else (deepSearch o) (query o) = Some [] ->
  allFilters h o = default [] (filters o).
Proof. unfold allFilters, searchText. intros [-> | ->]; reflexivity. Qed.

(** C7, as amended. [query] alone gives the same search as [deepSearch]
    alone with the same term; when both are given and the term of
    [deepSearch] is not empty, the search is the one of [deepSearch]
    alone. *)
Theorem search_query_alias (h : heap) (db : Database) (o : SearchOptions)
    (x y : jsstring) :
  search h db (Some (set_query (set_deepSearch o None) (Some x))) =
  search h db (Some (set_deepSearch (set_query o None) (Some x))) /\
  (x <> [] ->
   search h db (Some (set_query (set_deepSearch o (Some x)) (Some y))) =
   search h db (Some (set_query (set_deepSearch o (Some x)) None))).
Proof.
  split.
  - apply search_congr; try reflexivity.
    destruct x as [|c x].
    + rewrite !allFilters_no_term; [reflexivity | left; reflexivity | right; reflexivity].
    + apply allFilters_congr; reflexivity.
  - intros Hx. apply search_congr; try reflexivity.
    apply allFilters_congr; [reflexivity |].
    destruct x as [|c x]; [contradiction | reflexivity].
Qed.

Lemma search_query_alias_witness :
  js "pen" <> [] /\
  search Examples.h_items Examples.items
    (Some (set_query (set_deepSearch no_options (Some (js "pen"))) (Some (js "cup")))) =
  search Examples.h_items Examples.items
    (Some (set_query (set_deepSearch no_options (Some (js "pen"))) None)).
Proof.
  assert (Hne : js "pen" <> []) by discriminate.
  split; [exact Hne |].
  destruct (search_query_alias Examples.h_items Examples.items no_options
              (js "pen") (js "cup")) as [_ H].
  exact (H Hne).
Defined.

(** C7 as stated fails: with [deepSearch] the empty string and [query]
    "pen", two different terms, the result is the one of "pen" and not
    the one of [deepSearch] alone. *)
Lemma search_query_alias_counterexample :
  js "" <> js "pen" /\
  fst (search Examples.h_items Examples.items
         (Some (set_query (set_deepSearch no_options (Some (js ""))) (Some (js "pen"))))) =
    [(js "i:1", VObject 1); (js "i:2", VObject 2)] /\
  fst (search Examples.h_items Examples.items
         (Some (set_deepSearch no_options (Some (js ""))))) =
    Examples.items /\
  fst (search Examples.h_items Examples.items
         (Some (set_query (set_deepSearch no_options (Some (js ""))) (Some (js "pen"))))) <>
  fst (search Examples.h_items Examples.items
         (Some (set_deepSearch no_options (Some (js ""))))).
Proof.
  split; [discriminate |]. split; [vm_compute; reflexivity |].
  split; [vm_compute; reflexivity |].
  intros Heq. vm_compute in Heq. discriminate Heq.
Qed.

(** C10. An empty [deepSearch] or [query] is the same as an absent one:
    no predicate is added, so a record without any string is kept, though
    the deep search for the empty text rejects it; the search with
    [deepSearch] empty is the search with no options, and next to an
    empty [deepSearch] a non-empty [query] gives the term. *)
Theorem search_empty_term_absent (h : heap) (db : Database) (o : SearchOptions)
    (y : jsstring) (record : value) :
  search h db (Some (set_deepSearch o (Some []))) =
    search h db (Some (set_deepSearch o None)) /\
  search h db (Some (set_query o (Some []))) =
    search h db (Some (set_query o None)) /\
  allFilters h (set_deepSearch (set_query o None) (Some [])) =
    default [] (filters o) /\
  allFilters h (set_query (set_deepSearch o None) (Some [])) =
    default [] (filters o) /\
  search h db (Some (set_deepSearch no_options (Some []))) = search h db None /\
  (y <> [] ->
   searchText (set_query (set_deepSearch o (Some [])) (Some y)) =
     Some (toLowerCase y) /\
   search h db (Some (set_query (set_deepSearch o (Some [])) (Some y))) =
     search h db (Some (set_query (set_deepSearch o None) (Some y)))) /\
  ((forall s, ~ reach h record s) -> deepSearchCall h [] record = false) /\
  (forall s, reach h record s -> deepSearchCall h [] record = true) /\
  deepSearchCall Examples.h_items [] (VObject 5) = false /\
  In (js "i:4", VObject 5)
     (fst (search Examples.h_items Examples.items
             (Some (set_deepSearch no_options (Some []))))).
Proof.
  split; [| split; [| split; [| split; [| split; [| split; [| split; [| split; [| split]]]]]]]].
  - apply search_congr; reflexivity.
  - apply search_congr; try reflexivity.
    unfold allFilters, searchText. simpl filters. simpl deepSearch. simpl query.
    destruct (deepSearch o) as [[|c s] |]; reflexivity.
  - reflexivity.
  - reflexivity.
  - reflexivity.
  - intros Hy. split.
    + destruct y as [|c y]; [contradiction | reflexivity].
    + apply search_congr; reflexivity.
  - intros Hnone. apply not_true_is_false. rewrite deepSearchCall_true.
    intros (s & Hr & _). exact (Hnone s Hr).
  - intros s Hr. apply deepSearchCall_true. exists s.
    split; [exact Hr | apply includes_nil].
  - vm_compute. reflexivity.
  - vm_compute. auto 10.
Qed.

Lemma search_empty_term_absent_witness :
  js "pen" <> [] /\
  search Examples.h_items Examples.items
    (Some (set_query (set_deepSearch no_options (Some [])) (Some (js "pen")))) =
  search Examples.h_items Examples.items
    (Some (set_query (set_deepSearch no_options None) (Some (js "pen")))).
Proof.
  assert (Hne : js "pen" <> []) by discriminate.
  split; [exact Hne |].
  destruct (search_empty_term_absent Examples.h_items Examples.items no_options
              (js "pen") VNull) as (_ & _ & _ & _ & _ & H & _).
  exact (proj2 (H Hne)).
Defined.

(** ** The shape of a result *)

Lemma result_perm (h : heap) (db : Database) (o : SearchOptions) :
  Permutation (fst (search h db (Some o))) (accumulated h db o).
Proof.
  rewrite search_fst. destruct (sort o); [apply array_sort_perm | apply Permutation_refl].
Qed.

Lemma accumulated_sublist (h : heap) (db : Database) (o : SearchOptions) :
  accumulated h db o `sublist_of` getRange db (rangeOpts o).
Proof.
  unfold accumulated, matching_pairs.
  etrans; [apply take_until_sublist | apply filter_sublist].
Qed.

Lemma getRange_keys_NoDup (db : Database) (r : RangeOptions) :
  db_ok db -> List.NoDup (List.map fst (getRange db r)).
Proof.
  intros Hok. unfold getRange.
  assert (Hnd : List.NoDup (List.map fst (List.filter (fun e => in_range r (fst e)) db))).
  { apply NoDup_ListNoDup.
    refine (sublist_NoDup _ _ _ (map_sublist fst _ _ (filter_sublist _ _))).
    apply NoDup_ListNoDup, sorted_keys_NoDup, Hok. }
  destruct (reverse r); [| exact Hnd].
  rewrite map_rev. apply NoDup_rev, Hnd.
Qed.

(** C9. Every result, with options or without, is a list of pairs, each
    of them yielded by the scanned range and holding the value stored
    for its key; no key occurs twice;
    the result is a permutation of the accumulated pairs. Without a
    comparator it is a subsequence of the range iteration: ascending by
    key, or descending when the caller reversed the scan. With a
    comparator that is a consistent comparator, as the language defines
    it, for the accumulated pairs, it is in the order of the
    comparator. *)
Theorem search_result_shape (h : heap) (db : Database)
    (options : option SearchOptions) :
  db_ok db ->
  let o := default no_options options in
  let result := fst (search h db options) in
  (forall k v, In (k, v) result ->
     In (k, v) (getRange db (rangeOpts o)) /\ db_get db k = Some v) /\
  List.NoDup (List.map fst result) /\
  Permutation result (accumulated h db o) /\
  (sort o = None ->
   result `sublist_of` getRange db (rangeOpts o) /\
   (reverse (rangeOpts o) = false -> StronglySorted key_lt (List.map fst result)) /\
   (reverse (rangeOpts o) = true ->
    StronglySorted (fun a b => key_lt b a) (List.map fst result))) /\
  (forall compareFn,
     sort o = Some compareFn ->
     consistent_on (by_value compareFn) (accumulated h db o) = true ->
     StronglySorted (fun a b => before compareFn (snd a) (snd b)) result).
Proof.
  intros Hok o result.
  assert (Hsome : result = fst (search h db (Some o)))
    by (destruct options; reflexivity).
  clearbody result. subst result.
  set (result := fst (search h db (Some o))).
  pose proof (result_perm h db o) as Hperm. fold result in Hperm.
  pose proof (accumulated_sublist h db o) as Hsub.
  split; [| split; [| split; [exact Hperm | split]]].
  - intros k v Hin.
    assert (Hr : In (k, v) (getRange db (rangeOpts o))).
    { eapply sublist_In; [exact Hsub |]. eapply Permutation_in; eassumption. }
    split; [exact Hr |]. apply db_get_In; [exact Hok |]. eapply getRange_In, Hr.
  - eapply Permutation_NoDup; [apply Permutation_sym, Permutation_map, Hperm |].
    apply NoDup_ListNoDup.
    refine (sublist_NoDup _ _ _ (map_sublist fst _ _ Hsub)).
    apply NoDup_ListNoDup, getRange_keys_NoDup, Hok.
  - intros Hsort.
    assert (Hres : result = accumulated h db o).
    { unfold result. rewrite search_fst, Hsort. reflexivity. }
    rewrite Hres. split; [exact Hsub |]. split; intros Hrev.
    + eapply sublist_sorted; [apply map_sublist, Hsub |].
      eapply sublist_sorted; [apply map_sublist, getRange_sublist, Hrev | exact Hok].
    + eapply sublist_sorted; [apply map_sublist, Hsub |].
      unfold getRange. rewrite Hrev, map_rev. apply sorted_rev.
      eapply sublist_sorted; [apply map_sublist, filter_sublist | exact Hok].
  - intros compareFn Hsort Hcons. unfold result. rewrite search_fst, Hsort.
    exact (array_sort_sorted (by_value compareFn) _ Hcons).
Qed.

Lemma search_result_shape_witness :
  db_ok Examples.four /\
  consistent_on (by_value Examples.by_v)
    (accumulated Examples.h_v Examples.four
       (set_sort no_options (Some Examples.by_v))) = true /\
  StronglySorted (fun a b => before Examples.by_v (snd a) (snd b))
    (fst (search Examples.h_v Examples.four
            (Some (set_sort no_options (Some Examples.by_v))))).
Proof.
  assert (Hok : db_ok Examples.four) by (unfold db_ok; simpl; repeat constructor).
  assert (Hc : consistent_on (by_value Examples.by_v)
                 (accumulated Examples.h_v Examples.four
                    (set_sort no_options (Some Examples.by_v))) = true)
    by (vm_compute; reflexivity).
  split; [exact Hok |]. split; [exact Hc |].
  destruct (search_result_shape Examples.h_v Examples.four
              (Some (set_sort no_options (Some Examples.by_v))) Hok)
    as (_ & _ & _ & _ & H).
  exact (H Examples.by_v eq_refl Hc).
Defined.


(** * Further properties of [search] and [deepSearchHelper] *)

(** ** Helpers *)

Lemma passes_app (fs gs : list predicate) (e : entry) :
  passes (fs ++ gs) e = passes fs e && passes gs e.
Proof. unfold passes. apply forallb_app. Qed.

Lemma passes_In (fs : list predicate) (e : entry) :
  passes fs e = true <-> forall f, In f fs -> f (snd e) (fst e) = true.
Proof. unfold passes. apply forallb_forall. Qed.

Lemma getRange_In_range (db : Database) (r : RangeOptions) (e : entry) :
  In e (getRange db r) <-> In e db /\ in_range r (fst e) = true.
Proof.
  unfold getRange.
  rewrite <- (List.filter_In (fun e => in_range r (fst e)) e db).
  destruct (reverse r); [symmetry; apply in_rev | reflexivity].
Qed.

Lemma result_In_matching (h : heap) (db : Database) (o : SearchOptions) (e : entry) :
  In e (fst (search h db (Some o))) -> In e (matching_pairs h db o).
Proof.
  intros Hin. eapply sublist_In; [apply take_until_sublist |].
  eapply Permutation_in; [apply result_perm | exact Hin].
Qed.

Lemma accumulated_unlimited (h : heap) (db : Database) (o : SearchOptions) :
  (forall n, length_ge n (limit_of o) = false) ->
  accumulated h db o = matching_pairs h db o.
Proof. intros Hlim. unfold accumulated. apply take_until_unlimited, Hlim. Qed.

(** The predicates that a search applies: the filters of the caller,
    then the deep search when a non-empty term is given. *)
Lemma allFilters_shape (h : heap) (o : SearchOptions) :
  allFilters h o =
  default [] (filters o) ++
  match or_else (deepSearch o) (query o) with
  | Some (c :: t) => [fun v _ => deepSearchCall h (toLowerCase (c :: t)) v]
  | _ => []
  end.
Proof.
  unfold allFilters, searchText.
  destruct (or_else (deepSearch o) (query o)) as [[|c t] |]; simpl;
    try rewrite toLowerCase_truthy; try rewrite app_nil_r; reflexivity.
Qed.

(** ** What a result holds *)

(** X1. Whatever the options, every returned entry is an entry of the
    collection whose key lies in the scanned range, for which every
    filter of the caller returned true, and which matches the deep
    search when a non-empty term is given. *)
Theorem search_results_pass (h : heap) (db : Database)
    (options : option SearchOptions) (e : entry) :
  let o := default no_options options in
  In e (fst (search h db options)) ->
  In e db /\
  in_range (rangeOpts o) (fst e) = true /\
  (forall f, In f (default [] (filters o)) -> f (snd e) (fst e) = true) /\
  (forall t, or_else (deepSearch o) (query o) = Some t -> t <> [] ->
             deepSearchCall h (toLowerCase t) (snd e) = true).
Proof.
  intros o Hin.
  assert (Hin' : In e (fst (search h db (Some o)))) by (destruct options; exact Hin).
  apply result_In_matching in Hin'. unfold matching_pairs in Hin'.
  apply List.filter_In in Hin'. destruct Hin' as [Hr Hp].
  apply getRange_In_range in Hr. destruct Hr as [Hdb Hrange].
  rewrite allFilters_shape, passes_app in Hp. apply andb_true_iff in Hp.
  destruct Hp as [Hfs Hdeep].
  split; [exact Hdb |]. split; [exact Hrange |]. split.
  - apply passes_In, Hfs.
  - intros t Ht Hne. rewrite Ht in Hdeep.
    destruct t as [|c t]; [contradiction |].
    unfold passes in Hdeep. simpl in Hdeep. rewrite andb_true_r in Hdeep. exact Hdeep.
Qed.

Lemma search_results_pass_witness :
  In (js "p2", VObject 2)
     (fst (search Examples.h_products Examples.products
             (Some (set_filters no_options (Some [Examples.cheap]))))) /\
  Examples.cheap (VObject 2) (js "p2") = true.
Proof.
  assert (Hin : In (js "p2", VObject 2)
                  (fst (search Examples.h_products Examples.products
                          (Some (set_filters no_options (Some [Examples.cheap]))))))
    by (vm_compute; auto).
  split; [exact Hin |].
  destruct (search_results_pass Examples.h_products Examples.products
              (Some (set_filters no_options (Some [Examples.cheap])))
              (js "p2", VObject 2) Hin) as (_ & _ & H & _).
  apply (H Examples.cheap). left. reflexivity.
Defined.

(** X2. Without a limit nothing that matches is left out: an entry is
    returned exactly when it lies in the scanned range and passes every
    predicate. The result is a permutation of the matching pairs, and
    the matching pairs themselves when there is no comparator. *)
Theorem search_unlimited_complete (h : heap) (db : Database) (o : SearchOptions)
    (e : entry) :
  let o' := set_limit o None in
  (In e (fst (search h db (Some o'))) <->
   In e (getRange db (rangeOpts o)) /\ passes (allFilters h o) e = true) /\
  Permutation (fst (search h db (Some o'))) (matching_pairs h db o) /\
  fst (search h db (Some (set_sort o' None))) = matching_pairs h db o.
Proof.
  intros o'.
  assert (Hacc : accumulated h db o' = matching_pairs h db o)
    by (apply (accumulated_unlimited h db o'); reflexivity).
  assert (Hperm : Permutation (fst (search h db (Some o'))) (matching_pairs h db o)).
  { rewrite <- Hacc. apply result_perm. }
  split; [| split; [exact Hperm |]].
  - unfold matching_pairs in Hperm. rewrite <- List.filter_In. split; intros Hin.
    + eapply Permutation_in; [exact Hperm | exact Hin].
    + eapply Permutation_in; [apply Permutation_sym, Hperm | exact Hin].
  - rewrite search_fst. simpl sort. cbv iota. exact Hacc.
Qed.

(** X3. With a positive integer limit [n] the result holds [n] entries,
    or all the matching ones when they are fewer, with or without a
    comparator: never more than [n]. *)
Theorem search_limit_bound (h : heap) (db : Database) (o : SearchOptions)
    (n : nat) :
  0 < n ->
  length (fst (search h db (Some (set_limit o (Some (of_nat n)))))) =
  Nat.min n (length (matching_pairs h db o)).
Proof.
  intros Hn.
  rewrite (Permutation_length (result_perm h db _)).
  rewrite accumulated_of_nat by exact Hn. apply length_firstn.
Qed.

Lemma search_limit_bound_witness :
  0 < 3 /\
  length (fst (search Examples.h_v Examples.five
                 (Some (set_limit (set_sort no_options (Some Examples.by_v))
                          (Some (of_nat 3)))))) = 3.
Proof.
  split; [lia |].
  rewrite (search_limit_bound Examples.h_v Examples.five
             (set_sort no_options (Some Examples.by_v)) 3 ltac:(lia)).
  reflexivity.
Defined.

(** X4. The result is empty exactly when no pair of the scanned range
    passes the predicates, whatever the limit, zero and negative limits
    included, and whatever the comparator. *)
Theorem search_empty_iff (h : heap) (db : Database) (o : SearchOptions) :
  fst (search h db (Some o)) = [] <-> matching_pairs h db o = [].
Proof.
  assert (Hacc : accumulated h db o = [] <-> matching_pairs h db o = []).
  { unfold accumulated. destruct (matching_pairs h db o) as [|e l].
    - split; reflexivity.
    - rewrite take_until_cons. split; discriminate. }
  rewrite <- Hacc. split; intros Hnil.
  - apply Permutation_nil. rewrite <- Hnil. apply result_perm.
  - apply Permutation_nil. rewrite <- Hnil. apply Permutation_sym, result_perm.
Qed.

(** ** Limits that are not positive integers *)

Lemma for_of_limit_ext (it : list entry) (fs : list predicate) (l1 l2 : number)
    (acc : list entry) :
  (forall n, length_ge n l1 = length_ge n l2) ->
  for_of it fs l1 acc = for_of it fs l2 acc.
Proof.
  intros Hext. revert acc. induction it as [|[k v] it IH]; intros acc; [reflexivity |].
  rewrite !for_of_cons. unfold mbind, traced_bind. cbv beta zeta.
  rewrite !IH, Hext. reflexivity.
Qed.

Lemma search_limit_ext (h : heap) (db : Database) (o : SearchOptions)
    (l1 l2 : option number) :
  (forall n, length_ge n (default PosInfinity l1) =
             length_ge n (default PosInfinity l2)) ->
  search h db (Some (set_limit o l1)) = search h db (Some (set_limit o l2)).
Proof.
  intros Hext. unfold search. simpl default at 1 3. simpl limit. simpl sort.
  rewrite (for_of_limit_ext _ _ _ _ _ Hext). reflexivity.
Qed.

Lemma length_ge_ceil (q : Q) (n len : nat) :
  (inject_Z (Z.of_nat n - 1) < q)%Q -> (q <= inject_Z (Z.of_nat n))%Q ->
  length_ge len (Finite q) = length_ge len (of_nat n).
Proof.
  intros Hlo Hhi. rewrite length_ge_of_nat. unfold length_ge.
  destruct (Nat.leb_spec n len) as [Hle | Hlt].
  - apply Qle_bool_iff. eapply Qle_trans; [exact Hhi |].
    rewrite <- Zle_Qle. lia.
  - destruct (Qle_bool q (inject_Z (Z.of_nat len))) eqn:Hq; [| reflexivity].
    apply Qle_bool_iff in Hq.
    pose proof (Qlt_le_trans _ _ _ Hlo Hq) as Hlt'.
    rewrite <- Zlt_Qlt in Hlt'. lia.
Qed.

(** X5. A limit that is [NaN] or [Infinity] is no limit at all, and a
    limit that is not an integer counts as the next integer above it:
    the search, result and scan, is the same. *)
Theorem search_limit_special (h : heap) (db : Database) (o : SearchOptions) :
  search h db (Some (set_limit o (Some NaN))) = search h db (Some (set_limit o None)) /\
  search h db (Some (set_limit o (Some PosInfinity))) =
    search h db (Some (set_limit o None)) /\
  (forall (q : Q) (n : nat),
     (inject_Z (Z.of_nat n - 1) < q)%Q -> (q <= inject_Z (Z.of_nat n))%Q ->
     search h db (Some (set_limit o (Some (Finite q)))) =
     search h db (Some (set_limit o (Some (of_nat n))))).
Proof.
  split; [| split].
  - apply search_limit_ext. reflexivity.
  - reflexivity.
  - intros q n Hlo Hhi. apply search_limit_ext. intros len.
    apply length_ge_ceil; assumption.
Qed.

Lemma search_limit_special_witness :
  (inject_Z (Z.of_nat 2 - 1) < 3 # 2)%Q /\ (3 # 2 <= inject_Z (Z.of_nat 2))%Q /\
  fst (search Examples.h_v Examples.five
         (Some (set_limit no_options (Some (Finite (3 # 2)))))) =
  [(js "k1", VObject 1); (js "k2", VObject 2)].
Proof.
  assert (Hlo : (inject_Z (Z.of_nat 2 - 1) < 3 # 2)%Q) by reflexivity.
  assert (Hhi : (3 # 2 <= inject_Z (Z.of_nat 2))%Q) by (intros H; discriminate H).
  split; [exact Hlo |]. split; [exact Hhi |].
  destruct (search_limit_special Examples.h_v Examples.five no_options)
    as (_ & _ & H).
  rewrite (H (3 # 2)%Q 2 Hlo Hhi). reflexivity.
Defined.

(** ** The prefix *)

(** The keys of the range [[p, p + U+FFFF)], whatever their code points:
    [p] itself and [p] followed by a code point below U+FFFF. *)
Lemma prefix_range_exact (p k : jsstring) :
  key_leb p k && key_ltb k (p ++ [U_FFFF]) = true <->
  k = p \/ exists c r, k = p ++ c :: r /\ (c < U_FFFF)%N.
Proof.
  unfold key_leb. revert k. induction p as [|c p IH]; intros k.
  - rewrite key_ltb_nil_r. simpl.
    destruct k as [|d k]; simpl.
    + split; [intros _; left; reflexivity | reflexivity].
    + rewrite key_ltb_nil_r, andb_false_r, orb_false_r, N.ltb_lt. split.
      * intros Hd. right. exists d, k. split; [reflexivity | exact Hd].
      * intros [Heq | (c & r & Heq & Hc)]; [discriminate |].
        injection Heq as -> _. exact Hc.
  - destruct k as [|d k]; simpl.
    + split; [discriminate |].
      intros [Heq | (c' & r & Heq & _)]; discriminate.
    + destruct (N.compare_spec d c) as [-> | Hlt | Hgt].
      * rewrite N.ltb_irrefl, N.eqb_refl. simpl. rewrite IH. split.
        -- intros [-> | (c' & r & -> & Hc)]; [left; reflexivity |].
           right. exists c', r. split; [reflexivity | exact Hc].
        -- intros [Heq | (c' & r & Heq & Hc)].
           ++ injection Heq as ->. left. reflexivity.
           ++ injection Heq as ->. right. exists c', r. split; [reflexivity | exact Hc].
      * pose proof Hlt as Hlt'. apply N.ltb_lt in Hlt'. rewrite Hlt'. simpl.
        split; [discriminate |].
        intros [Heq | (c' & r & Heq & _)]; injection Heq as -> _; lia.
      * assert (Hdc : (d <? c)%N = false) by (apply N.ltb_ge; lia).
        assert (Hdc' : (d =? c)%N = false) by (apply N.eqb_neq; lia).
        rewrite Hdc, Hdc'. simpl.
        split; [discriminate |].
        intros [Heq | (c' & r & Heq & _)]; injection Heq as -> _; lia.
Qed.

Lemma unlimited_In (h : heap) (db : Database) (o : SearchOptions) (e : entry) :
  In e (fst (search h db (Some (set_limit o None)))) <->
  In e (getRange db (rangeOpts o)) /\ passes (allFilters h o) e = true.
Proof.
  assert (Hperm : Permutation (fst (search h db (Some (set_limit o None))))
                    (matching_pairs h db o)).
  { assert (Hacc : accumulated h db (set_limit o None) = matching_pairs h db o)
      by (apply (accumulated_unlimited h db (set_limit o None)); reflexivity).
    rewrite <- Hacc. apply result_perm. }
  unfold matching_pairs in Hperm.
  rewrite <- (List.filter_In (passes (allFilters h o)) e (getRange db (rangeOpts o))).
  split; intros Hin.
  - eapply Permutation_in; [exact Hperm | exact Hin].
  - eapply Permutation_in; [apply Permutation_sym, Hperm | exact Hin].
Qed.

(** X6. With a non-empty prefix [P] and no limit, and with no assumption
    on the keys, an entry is returned exactly when it passes the
    predicates and its key is [P] or [P] followed by a code point below
    U+FFFF. A key that continues [P] with a code point at or above
    U+FFFF is never returned, though it starts with [P]. *)
Theorem search_prefix_reach (h : heap) (db : Database) (o : SearchOptions)
    (P : jsstring) (e : entry) :
  P <> [] ->
  let result := fst (search h db (Some (set_prefix (set_limit o None) (Some P)))) in
  (In e result <->
   In e db /\
   (fst e = P \/ exists c r, fst e = P ++ c :: r /\ (c < U_FFFF)%N) /\
   passes (allFilters h o) e = true) /\
  (forall c r, (U_FFFF <= c)%N -> fst e = P ++ c :: r -> ~ In e result).
Proof.
  intros HP result.
  assert (Hiff : In e result <->
                 In e db /\
                 (fst e = P \/ exists c r, fst e = P ++ c :: r /\ (c < U_FFFF)%N) /\
                 passes (allFilters h o) e = true).
  { unfold result.
    rewrite (unlimited_In h db (set_prefix o (Some P)) e), getRange_In_range.
    rewrite <- prefix_range_exact.
    destruct P as [|c P]; [contradiction |].
    unfold in_range, rangeOpts. simpl.
    change (allFilters h (set_prefix o (Some (c :: P)))) with (allFilters h o).
    tauto. }
  split; [exact Hiff |].
  intros c r Hc Hkey Hin. apply Hiff in Hin.
  destruct Hin as (_ & [Heq | (c' & r' & Heq & Hc')] & _); rewrite Hkey in Heq.
  - rewrite <- (app_nil_r P) in Heq at 2. apply app_inv_head in Heq. discriminate.
  - apply app_inv_head in Heq. injection Heq as -> _. lia.
Qed.

Lemma search_prefix_reach_witness :
  js "p" <> [] /\
  fst (search ∅ MoreExamples.wide_keys
         (Some (set_prefix (set_limit no_options None) (Some (js "p"))))) =
    [(js "p", VNull); (js "p1", VNull)] /\
  startsWith (js "p" ++ [128512%N]) (js "p") = true /\
  ~ In (js "p" ++ [128512%N], VNull)
       (fst (search ∅ MoreExamples.wide_keys
               (Some (set_prefix (set_limit no_options None) (Some (js "p")))))).
Proof.
  assert (Hne : js "p" <> []) by discriminate.
  split; [exact Hne |]. split; [vm_compute; reflexivity |].
  split; [reflexivity |].
  destruct (search_prefix_reach ∅ MoreExamples.wide_keys no_options (js "p")
              (js "p" ++ [128512%N], VNull) Hne) as [_ H].
  apply (H 128512%N []); [vm_compute; discriminate | reflexivity].
Defined.

Lemma filter_filter_andb {A} (f g : A -> bool) (l : list A) :
  List.filter f (List.filter g l) = List.filter (fun x => g x && f x) l.
Proof.
  induction l as [|x l IH]; simpl; [reflexivity |].
  destruct (g x); simpl; [destruct (f x) |]; rewrite ?IH; reflexivity.
Qed.

Lemma allFilters_front (h : heap) (o : SearchOptions) (f : predicate) :
  allFilters h (set_filters (set_prefix o None) (Some (f :: default [] (filters o)))) =
  f :: allFilters h o.
Proof.
  rewrite !allFilters_shape. reflexivity.
Qed.

(** X7. When no key holds a code point at or above U+FFFF, the prefix
    gives the result of the filter [key.startsWith(P)] put in front of
    the other filters, whatever the limit, the comparator and the
    direction of the scan. *)
Theorem search_prefix_as_filter (h : heap) (db : Database) (o : SearchOptions)
    (P : jsstring) :
  keys_below_sentinel db ->
  fst (search h db (Some (set_prefix o (Some P)))) =
  fst (search h db
         (Some (set_filters (set_prefix o None)
                  (Some (key_startsWith P :: default [] (filters o)))))).
Proof.
  intros Hbelow.
  set (o1 := set_prefix o (Some P)).
  set (o2 := set_filters (set_prefix o None)
               (Some (key_startsWith P :: default [] (filters o)))).
  assert (Hrev : reverse (rangeOpts o1) = reverse (rangeOpts o2)) by reflexivity.
  assert (H1 : List.filter (fun e => in_range (rangeOpts o1) (fst e)) db =
               List.filter (fun e => startsWith (fst e) P) db).
  { apply filter_ext_in. intros e He.
    eapply List.Forall_forall in Hbelow; [| exact He].
    unfold in_range, o1, rangeOpts. simpl prefix. simpl default.
    simpl start. simpl end_.
    destruct P as [|c P]; simpl truthy_string; cbv iota.
    - unfold key_leb. rewrite key_ltb_nil_r. reflexivity.
    - apply prefix_range, Hbelow. }
  assert (H2 : List.filter (fun e => in_range (rangeOpts o2) (fst e)) db = db).
  { apply filter_true. intros e _. unfold in_range, o2, rangeOpts, key_leb. simpl.
    rewrite key_ltb_nil_r. reflexivity. }
  assert (Hm : matching_pairs h db o1 = matching_pairs h db o2).
  { unfold matching_pairs, o2. rewrite allFilters_front. fold o2.
    change (allFilters h o1) with (allFilters h o).
    transitivity (List.filter (passes (allFilters h o))
                    (List.filter (fun e => startsWith (fst e) P)
                       (getRange db (rangeOpts o2))));
      [| apply filter_filter_andb].
    f_equal. unfold getRange. rewrite H1, H2, Hrev.
    destruct (reverse (rangeOpts o2)); [symmetry; apply filter_rev | reflexivity]. }
  rewrite !search_fst. change (sort o2) with (sort o1).
  unfold accumulated. change (limit o2) with (limit o1). rewrite Hm. reflexivity.
Qed.

Lemma search_prefix_as_filter_witness :
  keys_below_sentinel Examples.products /\
  fst (search Examples.h_products Examples.products
         (Some (set_filters no_options (Some [key_startsWith (js "p")])))) =
  [(js "p1", VObject 1); (js "p2", VObject 2); (js "p3", VObject 3)].
Proof.
  split; [exact products_below |].
  pose proof (search_prefix_as_filter Examples.h_products Examples.products
                no_options (js "p") products_below) as H.
  transitivity (fst (search Examples.h_products Examples.products
                       (Some (set_prefix no_options (Some (js "p")))))).
  - symmetry. exact H.
  - reflexivity.
Defined.

(** ** The search term *)

(** X8. Two terms with the same lower case give the same search, as
    [deepSearch] and as [query]: the case of the term is never
    observed. *)
Theorem search_term_case_insensitive (h : heap) (db : Database)
    (o : SearchOptions) (x y : jsstring) :
  toLowerCase x = toLowerCase y ->
  search h db (Some (set_deepSearch o (Some x))) =
    search h db (Some (set_deepSearch o (Some y))) /\
  search h db (Some (set_query (set_deepSearch o None) (Some x))) =
    search h db (Some (set_query (set_deepSearch o None) (Some y))).
Proof.
  intros Hxy.
  assert (Htext : forall o1 o2, filters o1 = filters o2 ->
                    searchText o1 = searchText o2 ->
                    allFilters h o1 = allFilters h o2).
  { intros o1 o2 Hf Ht. unfold allFilters. rewrite Hf, Ht. reflexivity. }
  split; apply search_congr; try reflexivity; apply Htext; try reflexivity;
    unfold searchText; simpl deepSearch; simpl query.
  - destruct x as [|c x], y as [|d y].
    + reflexivity.
    + symmetry in Hxy. apply toLowerCase_nil in Hxy. discriminate Hxy.
    + apply toLowerCase_nil in Hxy. discriminate Hxy.
    + change (Some (toLowerCase (c :: x)) = Some (toLowerCase (d :: y))).
      f_equal. exact Hxy.
  - change (Some (toLowerCase x) = Some (toLowerCase y)). f_equal. exact Hxy.
Qed.

Lemma search_term_case_insensitive_witness :
  toLowerCase MoreExamples.ecole_upper = toLowerCase MoreExamples.ecole_lower /\
  search Examples.h_items Examples.items
    (Some (set_deepSearch no_options (Some MoreExamples.ecole_upper))) =
  search Examples.h_items Examples.items
    (Some (set_deepSearch no_options (Some MoreExamples.ecole_lower))).
Proof.
  assert (Hl : toLowerCase MoreExamples.ecole_upper =
               toLowerCase MoreExamples.ecole_lower)
    by (vm_compute; reflexivity).
  split; [exact Hl |].
  exact (proj1 (search_term_case_insensitive Examples.h_items Examples.items
                  no_options MoreExamples.ecole_upper MoreExamples.ecole_lower Hl)).
Defined.

Lemma includes_trans (s t u : jsstring) :
  includes s t = true -> includes t u = true -> includes s u = true.
Proof.
  rewrite !includes_app. intros (a & b & ->) (c & d & ->).
  exists (a ++ c), (d ++ b). rewrite <- !app_assoc. reflexivity.
Qed.

Lemma deepSearchCall_shorter (h : heap) (t u : jsstring) (v : value) :
  includes t u = true ->
  deepSearchCall h t v = true -> deepSearchCall h u v = true.
Proof.
  intros Htu. rewrite !deepSearchCall_true. unfold matching.
  intros (s & Hr & Hm). exists s. split; [exact Hr |].
  eapply includes_trans; eassumption.
Qed.

(** X9. A term that is contained in another one matches at least the
    same records: a record that the deep search finds for a text is
    found for every text contained in it, and without a limit the
    entries returned for [deepSearch: x] are returned for every [y]
    whose lower case is contained in the lower case of [x]. *)
Theorem deep_search_shorter_term (h : heap) (db : Database) (o : SearchOptions)
    (x y : jsstring) (e : entry) :
  includes (toLowerCase x) (toLowerCase y) = true ->
  (deepSearchCall h (toLowerCase x) (snd e) = true ->
   deepSearchCall h (toLowerCase y) (snd e) = true) /\
  (In e (fst (search h db
                (Some (set_limit (set_deepSearch (set_query o None) (Some x)) None)))) ->
   In e (fst (search h db
                (Some (set_limit (set_deepSearch (set_query o None) (Some y)) None))))).
Proof.
  intros Hxy. split; [apply deepSearchCall_shorter, Hxy |].
  rewrite !unlimited_In. intros [Hr Hp]. split; [exact Hr |].
  rewrite allFilters_shape in *. simpl filters in *. simpl deepSearch in *.
  simpl query in *. rewrite passes_app in *.
  apply andb_true_iff in Hp. destruct Hp as [Hfs Hdeep].
  apply andb_true_iff. split; [exact Hfs |].
  destruct y as [|d y]; [reflexivity |].
  destruct x as [|c x].
  { apply includes_app in Hxy. destruct Hxy as (a & b & Hxy).
    assert (Hy : toLowerCase (d :: y) = []).
    { change (toLowerCase []) with (@nil N) in Hxy.
      symmetry in Hxy. apply app_eq_nil in Hxy. destruct Hxy as [_ Hxy].
      apply app_eq_nil in Hxy. exact (proj1 Hxy). }
    apply toLowerCase_nil in Hy. discriminate Hy. }
  simpl or_else in *. unfold passes in *. simpl forallb in *.
  rewrite andb_true_r in *. eapply deepSearchCall_shorter; eassumption.
Qed.

Lemma deep_search_shorter_term_witness :
  includes (toLowerCase (js "Blue Pen")) (toLowerCase (js "pen")) = true /\
  (In (js "i:2", VObject 2)
      (fst (search Examples.h_items Examples.items
              (Some (set_limit (set_deepSearch (set_query no_options None)
                                  (Some (js "Blue Pen"))) None)))) ->
   In (js "i:2", VObject 2)
      (fst (search Examples.h_items Examples.items
              (Some (set_limit (set_deepSearch (set_query no_options None)
                                  (Some (js "pen"))) None))))).
Proof.
  assert (Hin : includes (toLowerCase (js "Blue Pen")) (toLowerCase (js "pen")) = true)
    by reflexivity.
  split; [exact Hin |].
  exact (proj2 (deep_search_shorter_term Examples.h_items Examples.items no_options
                  (js "Blue Pen") (js "pen") (js "i:2", VObject 2) Hin)).
Defined.

(** The containment is read on the lower cases: "ΑΣ" contains "Σ", but
    the lower case of the first does not contain the lower case of the
    second. *)
Example lower_case_containment :
  includes MoreExamples.alpha_sigma MoreExamples.sigma = true /\
  includes (toLowerCase MoreExamples.alpha_sigma) (toLowerCase MoreExamples.sigma) =
    false.
Proof. split; vm_compute; reflexivity. Qed.

(** ** Property names *)

Lemma reach_same_members (h h' : heap) (v : value) (s : jsstring) :
  same_members h h' -> reach h v s -> reach h' v s.
Proof.
  intros Hsame. induction 1 as [s | l name child s Hin Hr IH]; [constructor |].
  assert (Hc : In child (List.map snd (props h' l))).
  { rewrite <- Hsame. apply (in_map snd _ _ Hin). }
  apply in_map_iff in Hc. destruct Hc as ([name' child'] & Heq & Hin').
  simpl in Heq. subst child'.
  eapply reach_member; eassumption.
Qed.

(** X10. The deep search looks at the values of the members only, never
    at their names: two heaps whose objects hold the same values under
    different names give the same answer. *)
Theorem deep_search_ignores_names (h h' : heap) (text : jsstring) (v : value) :
  same_members h h' ->
  deepSearchCall h text v = deepSearchCall h' text v.
Proof.
  intros Hsame.
  assert (Hsame' : same_members h' h) by (intros l; symmetry; apply Hsame).
  destruct (deepSearchCall h text v) eqn:H1, (deepSearchCall h' text v) eqn:H2;
    try reflexivity.
  - apply deepSearchCall_true in H1. destruct H1 as (s & Hr & Hm).
    assert (H3 : deepSearchCall h' text v = true).
    { apply deepSearchCall_true. exists s.
      split; [eapply reach_same_members; eassumption | exact Hm]. }
    congruence.
  - apply deepSearchCall_true in H2. destruct H2 as (s & Hr & Hm).
    assert (H3 : deepSearchCall h text v = true).
    { apply deepSearchCall_true. exists s.
      split; [eapply reach_same_members; eassumption | exact Hm]. }
    congruence.
Qed.

Lemma named_renamed : same_members MoreExamples.h_named MoreExamples.h_renamed.
Proof.
  intros l. unfold props, MoreExamples.h_named, MoreExamples.h_renamed.
  destruct (decide (l = 1%positive)) as [-> | Hne].
  - rewrite !lookup_insert_eq. reflexivity.
  - rewrite !lookup_insert_ne by congruence. reflexivity.
Defined.

Lemma deep_search_ignores_names_witness :
  same_members MoreExamples.h_named MoreExamples.h_renamed /\
  deepSearchCall MoreExamples.h_named (js "pen") (VObject 1) = false /\
  deepSearchCall MoreExamples.h_named (js "ink") (VObject 1) = true.
Proof.
  split; [exact named_renamed |].
  rewrite !(deep_search_ignores_names MoreExamples.h_named MoreExamples.h_renamed
              _ _ named_renamed).
  split; vm_compute; reflexivity.
Defined.

(** ** The order of the calls and of the pulls *)

(** The calls made on one pair: predicate [j] is called exactly when the
    predicates before it all returned true. *)
Lemma every_calls (fs : list predicate) (i : nat) (v : value) (k : jsstring)
    (ev : event) :
  In ev (snd (every fs i v k)) <->
  exists j, ev = Call j k /\ i <= j < i + length fs /\
            forall n f, n < j - i -> nth_error fs n = Some f -> f v k = true.
Proof.
  revert i. induction fs as [|f fs IH]; intros i.
  - simpl. split; [contradiction | intros (j & _ & Hj & _); lia].
  - rewrite every_cons, snd_bind. simpl snd at 1. simpl app. simpl In. split.
    + intros [<- | Hin].
      * exists i. split; [reflexivity |]. split; [simpl; lia |].
        intros n g Hn. lia.
      * destruct (f v k) eqn:Hf; [| contradiction].
        apply IH in Hin. destruct Hin as (j & -> & Hj & Hbefore).
        exists j. split; [reflexivity |]. split; [simpl; lia |].
        intros [|n] g Hn Hg; simpl in Hg.
        -- injection Hg as <-. exact Hf.
        -- apply (Hbefore n g); [lia | exact Hg].
    + intros (j & -> & Hj & Hbefore). simpl in Hj.
      destruct (Nat.eq_dec j i) as [-> | Hne]; [left; reflexivity |].
      right. assert (Hf : f v k = true) by (apply (Hbefore 0 f); [lia | reflexivity]).
      rewrite Hf. apply IH. exists j. split; [reflexivity |]. split; [lia |].
      intros n g Hn Hg. apply (Hbefore (S n) g); [lia | exact Hg].
Qed.

Lemma for_of_events (it : list entry) (fs : list predicate) (lim : number)
    (acc : list entry) (ev : event) :
  In ev (snd (for_of it fs lim acc)) ->
  exists k v, In (k, v) it /\ (ev = Pull k \/ In ev (snd (every fs 0 v k))).
Proof.
  revert acc. induction it as [|[k v] it IH]; intros acc; [contradiction |].
  rewrite for_of_cons, !snd_bind. simpl snd at 1. simpl app. simpl In.
  rewrite in_app_iff. intros [<- | [Hin | Hin]].
  - exists k, v. split; [left; reflexivity | left; reflexivity].
  - exists k, v. split; [left; reflexivity | right].
    unfold skip_test in Hin. destruct (0 <? length fs); [| contradiction].
    rewrite snd_bind in Hin. simpl in Hin. rewrite app_nil_r in Hin. exact Hin.
  - assert (Hrest : exists k' v', In (k', v') it /\
                      (ev = Pull k' \/ In ev (snd (every fs 0 v' k')))).
    { destruct (fst (skip_test fs v k)); [eapply IH, Hin |].
      destruct (length_ge (length (acc ++ [(k, v)])) lim); [contradiction |].
      eapply IH, Hin. }
    destruct Hrest as (k' & v' & Hin' & Hev).
    exists k', v'. split; [right; exact Hin' | exact Hev].
Qed.

(** X11. Whatever the number of predicates, predicate number [j] is
    called on a pair of the scanned range only, and only when all the
    predicates before it returned true on that pair; the deep search,
    the last of them, is called only when every filter of the caller
    passed. *)
Theorem search_calls_in_order (h : heap) (db : Database)
    (options : option SearchOptions) (j : nat) (k : jsstring) :
  let o := default no_options options in
  In (Call j k) (snd (search h db options)) ->
  j < length (allFilters h o) /\
  exists v, In (k, v) (getRange db (rangeOpts o)) /\
            forall n f, n < j -> nth_error (allFilters h o) n = Some f ->
                        f v k = true.
Proof.
  intros o Hin.
  assert (Hin' : In (Call j k) (snd (search h db (Some o))))
    by (destruct options; exact Hin).
  rewrite search_snd in Hin'. apply for_of_events in Hin'.
  destruct Hin' as (k' & v & Hr & [Hev | Hev]); [discriminate Hev |].
  apply every_calls in Hev. destruct Hev as (j' & Heq & Hj & Hbefore).
  injection Heq as -> ->. split; [lia |].
  exists v. split; [exact Hr |].
  intros n f Hn. apply Hbefore. lia.
Qed.

Lemma search_calls_in_order_witness :
  In (Call 1 (js "p3"))
     (snd (search Examples.h_products Examples.products
             (Some (set_filters no_options
                      (Some [Examples.cheap; Examples.not_too_cheap]))))) /\
  exists v, In (js "p3", v) Examples.products /\ Examples.cheap v (js "p3") = true.
Proof.
  assert (Hin : In (Call 1 (js "p3"))
                  (snd (search Examples.h_products Examples.products
                          (Some (set_filters no_options
                                   (Some [Examples.cheap; Examples.not_too_cheap]))))))
    by (vm_compute; auto 20).
  split; [exact Hin |].
  destruct (search_calls_in_order Examples.h_products Examples.products
              (Some (set_filters no_options
                       (Some [Examples.cheap; Examples.not_too_cheap])))
              1 (js "p3") Hin) as (_ & v & Hv & Hbefore).
  exists v. split.
  - apply getRange_In_range in Hv. exact (proj1 Hv).
  - apply (Hbefore 0 Examples.cheap); [lia | reflexivity].
Defined.

(** X12. A search is a single pass: the keys pulled from the iterator
    are an initial part of the keys of the scanned range, in their
    order, and the result never holds more entries than were pulled.
    Without a limit the whole range is pulled. *)
Theorem search_single_pass (h : heap) (db : Database) (o : SearchOptions) :
  (exists rest,
     List.map fst (getRange db (rangeOpts o)) =
     pulled (snd (search h db (Some o))) ++ rest) /\
  length (fst (search h db (Some o))) <= length (pulled (snd (search h db (Some o)))) /\
  pulled (snd (search h db (Some (set_limit o None)))) =
    List.map fst (getRange db (rangeOpts o)).
Proof.
  assert (Hgen : forall o',
            exists consumed rest,
              getRange db (rangeOpts o') = consumed ++ rest /\
              pulled (snd (search h db (Some o'))) = List.map fst consumed /\
              accumulated h db o' = List.filter (passes (allFilters h o')) consumed /\
              (rest <> [] ->
               length_ge (length (accumulated h db o')) (limit_of o') = true)).
  { intros o'.
    destruct (for_of_pulled (getRange db (rangeOpts o')) (allFilters h o')
                (limit_of o') []) as (c & r & Hit & Hpull & Hfst & Hrest).
    rewrite for_of_fst in Hfst, Hrest. simpl in Hfst, Hrest.
    exists c, r. split; [exact Hit |]. split; [rewrite search_snd; exact Hpull |].
    split; [exact Hfst |]. intros Hne. exact (proj1 (Hrest Hne)). }
  split; [| split].
  - destruct (Hgen o) as (c & r & Hit & Hpull & _).
    exists (List.map fst r). rewrite Hit, Hpull. apply map_app.
  - destruct (Hgen o) as (c & r & _ & Hpull & Hacc & _).
    rewrite (Permutation_length (result_perm h db o)), Hacc, Hpull, length_map.
    apply filter_length_le.
  - destruct (Hgen (set_limit o None)) as (c & r & Hit & Hpull & _ & Hrest).
    destruct r as [|e r].
    + rewrite app_nil_r in Hit. rewrite Hpull. f_equal. symmetry. exact Hit.
    + assert (Hne : e :: r <> []) by discriminate.
      specialize (Hrest Hne). discriminate Hrest.
Qed.

(** ** Filters and the deep search together *)

(** X13. Without a limit and a comparator, adding a non-empty
    [deepSearch] term to the options keeps, in the same order, the
    entries of the result without the term that match the deep search:
    the term narrows what the filters of the caller let through. *)
Theorem search_deep_narrows (h : heap) (db : Database) (o : SearchOptions)
    (x : jsstring) :
  x <> [] ->
  let o' := set_sort (set_limit (set_query o None) None) None in
  fst (search h db (Some (set_deepSearch o' (Some x)))) =
  List.filter (fun e => deepSearchCall h (toLowerCase x) (snd e))
    (fst (search h db (Some (set_deepSearch o' None)))).
Proof.
  intros Hx o'.
  rewrite !search_fst. simpl sort. cbv iota.
  rewrite !accumulated_unlimited by reflexivity.
  unfold matching_pairs. rewrite !allFilters_shape.
  simpl filters. simpl deepSearch. simpl query.
  destruct x as [|c x]; [contradiction |]. simpl or_else.
  rewrite app_nil_r, filter_filter_andb.
  apply filter_ext. intros e. rewrite passes_app. f_equal.
  unfold passes. simpl. apply andb_true_r.
Qed.

Lemma search_deep_narrows_witness :
  js "pen" <> [] /\
  List.filter (fun e => deepSearchCall Examples.h_items (toLowerCase (js "pen")) (snd e))
    Examples.items =
  [(js "i:1", VObject 1); (js "i:2", VObject 2)].
Proof.
  assert (Hne : js "pen" <> []) by discriminate.
  split; [exact Hne |].
  pose proof (search_deep_narrows Examples.h_items Examples.items no_options
                (js "pen") Hne) as H.
  transitivity (fst (search Examples.h_items Examples.items
                       (Some (set_deepSearch
                                (set_sort (set_limit (set_query no_options None) None) None)
                                (Some (js "pen")))))).
  - symmetry. exact H.
  - vm_compute. reflexivity.
Defined.

(** ** The deep search, member by member *)

(** X14. An object or array matches exactly when one of its member
    values matches, also when the members lead back to the object: the
    visited set never hides a match. An object without members does not
    match. *)
Theorem deep_search_object_members (h : heap) (text : jsstring) (l : loc) :
  deepSearchCall h text (VObject l) =
  existsb (fun m => deepSearchCall h text (snd m)) (props h l).
Proof.
  apply Bool.eq_iff_eq_true. rewrite deepSearchCall_true, existsb_exists. split.
  - intros (s & Hr & Hm). inversion Hr as [| l' name child s' Hin Hc]; subst.
    exists (name, child). split; [exact Hin |].
    apply deepSearchCall_true. exists s. split; [exact Hc | exact Hm].
  - intros ([name child] & Hin & Hc). apply deepSearchCall_true in Hc.
    destruct Hc as (s & Hr & Hm). exists s. split; [| exact Hm].
    eapply reach_member; eassumption.
Qed.
